(** * pcd-viewer: occupancy grid, adaptive octree and leaf sampling

    A shallow embedding of [src/data/viewer.py] (classes [LectorPCD],
    [RejillaOcupacion] and [NodoOctree], the table of
    [formatear_comparacion], and the parameters, leaf selection and cubes of
    [visualizar_archivo]) and the properties that its specification states
    about it.

    Conventions of the embedding.
    - A float64 coordinate is read as the rational number that it denotes
      ([Q]); a numpy array of shape (n, 3) is a [list Punto].  Comparisons,
      [np.min], [np.max], [np.floor] and [int] of such a value are exact.
      The operations that round ([+], [-], [*], [/] and [//]) are those of
      an [Aritmetica]: the definitions and the general theorems hold for
      every arithmetic, [exacta] computes without rounding and [binario64]
      computes with the float64 operations of the machine.  Infinities and
      NaN are not values of the model: a division by a zero cell size and a
      quotient that overflows are modelled by the exception that the
      following [int(...)] raises, and clouds with a coordinate that is
      not finite, or so large that a sum or a difference of two coordinates
      overflows, are outside the model.
    - Python's unbounded [int] is [Z]; a [dict] keyed by integer triples is a
      [gmap (Z * Z * Z) Z].
    - A Python exception is represented by the name of its class.
    - The recursive construction of the octree takes a [fuel] bounding the
      number of nested subdivisions, as the recursion limit of the
      interpreter does; [None] means that the bound was reached, where
      Python raises [RecursionError]. *)

From Stdlib Require Import ZArith QArith Qround Qminmax Qpower Lqa Lia String.
From Stdlib Require Import Ascii.
From Stdlib Require Import Floats.
From stdpp Require Import base option list gmap.

Local Open Scope Z_scope.

(** ** Values shared by both indexes *)

Definition Punto : Type := Q * Q * Q.
Definition Limites : Type := Punto * Punto.

Definition px (p : Punto) : Q := p.1.1.
Definition py (p : Punto) : Q := p.1.2.
Definition pz (p : Punto) : Q := p.2.

(** The outcome of a call: a value, or the class name of the exception. *)
Inductive Resultado (A : Type) : Type :=
  | Devuelve (a : A)
  | Lanza (excepcion : string).
Arguments Devuelve {A} a.
Arguments Lanza {A} excepcion.

(** [np.min(a)] and [np.max(a)] of a non-empty one-dimensional array. *)
Definition np_min (x : Q) (xs : list Q) : Q := foldr Qmin x xs.
Definition np_max (x : Q) (xs : list Q) : Q := foldr Qmax x xs.

(** [np.min(puntos, axis=0)] and [np.max(puntos, axis=0)]: they raise
    [ValueError] on an array without rows. *)
Definition np_min_axis0 (puntos : list Punto) : Resultado Punto :=
  match puntos with
  | [] => Lanza "ValueError"
  | p :: ps =>
      Devuelve (np_min (px p) (px <$> ps), np_min (py p) (py <$> ps),
                np_min (pz p) (pz <$> ps))
  end.

Definition np_max_axis0 (puntos : list Punto) : Resultado Punto :=
  match puntos with
  | [] => Lanza "ValueError"
  | p :: ps =>
      Devuelve (np_max (px p) (px <$> ps), np_max (py p) (py <$> ps),
                np_max (pz p) (pz <$> ps))
  end.

(** [int(q)]: truncation towards zero. *)
Definition int_Q (q : Q) : Z := Z.quot (Qnum q) (Z.pos (Qden q)).

(** ** The arithmetic of float64

    The operations of the program that round their result.  [divide] and
    [division_entera] are only used with a divisor that is not zero;
    [desborda a b] tells that the quotient [a / b] is too large for a
    float64, in which case numpy gives [inf]. *)
Class Aritmetica : Type := {
  suma : Q → Q → Q;              (* x + y *)
  resta : Q → Q → Q;             (* x - y *)
  producto : Q → Q → Q;          (* x * y *)
  divide : Q → Q → Q;            (* x / y *)
  desborda : Q → Q → bool;       (* x / y is inf *)
  division_entera : Q → Q → Z    (* int(x // y) *)
}.

(** Arithmetic without rounding.  A statement that names no arithmetic is
    about this one. *)
#[global] Instance exacta : Aritmetica := {|
  suma := Qplus;
  resta := Qminus;
  producto := Qmult;
  divide := Qdiv;
  desborda := λ _ _, false;
  division_entera := λ a b, Qfloor (a / b)
|}.

(** The arithmetic of the machine: the operands, which are float64 values,
    are converted to primitive floats, and the result back. *)
Module Binario64.

(** The float of an integer below [2^63] in absolute value (exact below
    [2^53]). *)
Definition de_Z (z : Z) : float :=
  if z <? 0 then PrimFloat.opp (PrimFloat.of_uint63 (Uint63.of_Z (- z)))
  else PrimFloat.of_uint63 (Uint63.of_Z z).

(** [Some k] for the denominator [2^k] of a float64 value. *)
Definition exponente (p : positive) : option Z :=
  let k := Z.log2 (Z.pos p) in if 2 ^ k =? Z.pos p then Some k else None.

(** The float that a rational denotes; for a rational that is not a
    float64 value, the rounded quotient of its numerator and denominator,
    as for the true division of two Python integers. *)
Definition de_Q (q : Q) : float :=
  let q := Qred q in
  match exponente (Qden q) with
  | Some k => Z.ldexp (de_Z (Qnum q)) (- k)
  | None => PrimFloat.div (de_Z (Qnum q)) (de_Z (Z.pos (Qden q)))
  end.

(** The rational that a finite float denotes, in lowest terms. *)
Definition a_Q (f : float) : Q :=
  match Prim2SF f with
  | S754_finite s m e =>
      let v := if 0 <=? e then inject_Z (Z.pos m * 2 ^ e)
               else Qred (Z.pos m # Pos.pow 2 (Z.to_pos (- e))) in
      if s then Qopp v else v
  | _ => 0%Q
  end.

Definition op (f : float → float → float) (a b : Q) : Q :=
  a_Q (f (de_Q a) (de_Q b)).

(** C's [fmod], which is exact. *)
Definition fmod (a b : Q) : Q := (a - b * inject_Z (int_Q (a / b)))%Q.

(** [a // b] as numpy's [npy_divmod] and Python's [float_divmod] compute
    it. *)
Definition floor_divide (a b : Q) : Q :=
  let mod_ := fmod a b in
  let div := op PrimFloat.div (op PrimFloat.sub a mod_) b in
  let div :=
    if negb (Qeq_bool mod_ 0)
       && negb (Bool.eqb (negb (Qle_bool 0 b)) (negb (Qle_bool 0 mod_)))
    then op PrimFloat.sub div 1 else div in
  if Qeq_bool div 0 then 0%Q
  else
    let floordiv := inject_Z (Qfloor div) in
    if negb (Qle_bool (op PrimFloat.sub div floordiv) (1 # 2))
    then op PrimFloat.add floordiv 1 else floordiv.

End Binario64.

Definition binario64 : Aritmetica := {|
  suma := Binario64.op PrimFloat.add;
  resta := Binario64.op PrimFloat.sub;
  producto := Binario64.op PrimFloat.mul;
  divide := Binario64.op PrimFloat.div;
  desborda := λ a b,
    PrimFloat.is_infinity
      (PrimFloat.div (Binario64.de_Q a) (Binario64.de_Q b));
  division_entera := λ a b, int_Q (Binario64.floor_divide a b)
|}.

(** [int(np.floor(a / b))] for float64 [a] and [b]: numpy divides by zero
    without raising (the quotient is [inf], or [nan] for [0 / 0]), and the
    conversion [int] then raises [OverflowError], respectively [ValueError];
    so it does when the quotient by a non-zero [b] overflows to [inf]. *)
Definition int_floor_div {ar : Aritmetica} (a b : Q) : Resultado Z :=
  if Qeq_bool b 0 then
    if Qeq_bool a 0 then Lanza "ValueError" else Lanza "OverflowError"
  else if desborda a b then Lanza "OverflowError"
  else Devuelve (Qfloor (divide a b)).

(** [int(a // b)] for a non-zero divisor. *)
Definition floordiv {ar : Aritmetica} (a b : Q) : Z := division_entera a b.

Definition suma_Z (l : list Z) : Z := foldr Z.add 0 l.

(** ** class RejillaOcupacion *)

Module RejillaOcupacion.

Record t : Type := {
  puntos : list Punto;
  tam_celda : Q;
  x_minimo : Q; y_minimo : Q; z_minimo : Q;
  x_maximo : Q; y_maximo : Q; z_maximo : Q;
  total_celdas : Z;
  rejilla : gmap (Z * Z * Z) Z
}.

(** The key of the cell that a point is counted in (lines 49-52). *)
Definition clave {ar : Aritmetica} (xmin ymin zmin tam : Q) (p : Punto)
    : Z * Z * Z :=
  (floordiv (resta (px p) xmin) tam, floordiv (resta (py p) ymin) tam,
   floordiv (resta (pz p) zmin) tam).

(** One iteration of the loop of [_poblar]:
    [self.rejilla[clave] = self.rejilla.get(clave, 0) + 1]. *)
Definition contar {ar : Aritmetica} (xmin ymin zmin tam : Q)
    (rej : gmap (Z * Z * Z) Z) (p : Punto) : gmap (Z * Z * Z) Z :=
  let c := clave xmin ymin zmin tam p in
  <[c := default 0 (rej !! c) + 1]> rej.

Definition _poblar {ar : Aritmetica} (xmin ymin zmin tam : Q)
    (pts : list Punto)
    (rej : gmap (Z * Z * Z) Z) : gmap (Z * Z * Z) Z :=
  foldl (contar xmin ymin zmin tam) rej pts.

(** [RejillaOcupacion(puntos, tam_celda)]. *)
Definition __init__ {ar : Aritmetica} (pts : list Punto) (tam : Q)
    : Resultado t :=
  match np_min_axis0 pts, np_max_axis0 pts with
  | Devuelve (xmin, ymin, zmin), Devuelve (xmax, ymax, zmax) =>
      match int_floor_div (resta xmax xmin) tam with
      | Lanza e => Lanza e
      | Devuelve fx =>
      match int_floor_div (resta ymax ymin) tam with
      | Lanza e => Lanza e
      | Devuelve fy =>
      match int_floor_div (resta zmax zmin) tam with
      | Lanza e => Lanza e
      | Devuelve fz =>
          let nx := fx + 1 in
          let ny := fy + 1 in
          let nz := fz + 1 in
          Devuelve {| puntos := pts; tam_celda := tam;
                      x_minimo := xmin; y_minimo := ymin; z_minimo := zmin;
                      x_maximo := xmax; y_maximo := ymax; z_maximo := zmax;
                      total_celdas := nx * ny * nz;
                      rejilla := _poblar xmin ymin zmin tam pts ∅ |}
      end end end
  | Lanza e, _ => Lanza e
  | _, Lanza e => Lanza e
  end.

(** The dictionary returned by [estadisticas_celdas]. *)
Record Estadisticas : Type := {
  e_total_celdas : Z;
  ocupadas : Z;
  vacias : Z;
  promedio_puntos : Q
}.

Definition valores (rej : gmap (Z * Z * Z) Z) : list Z :=
  (map_to_list rej).*2.

(** [np.mean] of a non-empty list of integers. *)
Definition np_mean {ar : Aritmetica} (l : list Z) : Q :=
  divide (inject_Z (suma_Z l)) (inject_Z (Z.of_nat (length l))).

Definition estadisticas_celdas {ar : Aritmetica} (self : t) : Estadisticas :=
  let ocupadas := Z.of_nat (size (rejilla self)) in
  let vacias := total_celdas self - ocupadas in
  let promedio :=
    if decide (ocupadas ≠ 0) then np_mean (valores (rejilla self)) else 0%Q in
  {| e_total_celdas := total_celdas self; ocupadas := ocupadas;
     vacias := vacias; promedio_puntos := promedio |}.

End RejillaOcupacion.

(** ** class NodoOctree *)

Definition Qge_bool (a b : Q) : bool := Qle_bool b a.
Definition Qlt_bool (a b : Q) : bool := negb (Qle_bool b a).

Module NodoOctree.

Inductive t : Type :=
  Nodo {
    puntos : list Punto;
    limites : Limites;
    tam_minimo : Q;
    maximo_puntos : Z;
    hijos : list t
  }.

(** [np.max(np.subtract(limites[1], limites[0]))] (line 74). *)
Definition tam_max {ar : Aritmetica} (lim : Limites) : Q :=
  let '((x0, y0, z0), (x1, y1, z1)) := lim in
  np_max (resta x1 x0) [resta y1 y0; resta z1 z0].

(** The test of [_subdividir_o_hoja] (line 75). *)
Definition debe_subdividir {ar : Aritmetica} (pts : list Punto)
    (lim : Limites) (tmin : Q) (maxp : Z) : bool :=
  (maxp <? Z.of_nat (length pts)) && Qlt_bool tmin (tam_max lim).

(** The eight [sub_limites] in the order of the three nested loops of
    [_subdividir] (lines 79-84). *)
Definition octantes {ar : Aritmetica} (lim : Limites) : list Limites :=
  let '((x0, y0, z0), (x1, y1, z1)) := lim in
  let mx := divide (suma x0 x1) 2 in
  let my := divide (suma y0 y1) 2 in
  let mz := divide (suma z0 z1) 2 in
  dx ← [(x0, mx); (mx, x1)];
  dy ← [(y0, my); (my, y1)];
  dz ← [(z0, mz); (mz, z1)];
  [((dx.1, dy.1, dz.1), (dx.2, dy.2, dz.2))].

(** One row of [mascara] (lines 85-89). *)
Definition mascara (sub : Limites) (p : Punto) : bool :=
  Qge_bool (px p) (px sub.1) && Qlt_bool (px p) (px sub.2) &&
  Qge_bool (py p) (py sub.1) && Qlt_bool (py p) (py sub.2) &&
  Qge_bool (pz p) (pz sub.1) && Qlt_bool (pz p) (pz sub.2).

(** [NodoOctree(puntos, limites, tam_minimo, maximo_puntos)]: the
    constructor calls [_subdividir_o_hoja], which calls [_subdividir],
    which constructs the eight children.  [fuel] bounds the number of
    nested subdivisions, and the result is [None] when a node at that depth
    still has to subdivide. *)
Fixpoint __init__ {ar : Aritmetica} (fuel : nat) (pts : list Punto)
    (lim : Limites) (tmin : Q) (maxp : Z) : option t :=
  if debe_subdividir pts lim tmin maxp then
    match fuel with
    | O => None
    | S fuel' =>
        hs ← mapM (λ sub, __init__ fuel' (List.filter (mascara sub) pts)
                            sub tmin maxp)
                  (octantes lim);
        Some (Nodo pts lim tmin maxp hs)
    end
  else Some (Nodo pts lim tmin maxp []).

(** The dictionary [estad] of [recopilar_estadisticas.recursivo]. *)
Record Estad : Type := {
  nodos : Z; hojas : Z; internos : Z;
  hojas_ocupadas : Z; hojas_vacias : Z; suma_puntos : Z
}.

(** [for k in estad: estad[k] += sub[k]]. *)
Definition acumular (estad sub : Estad) : Estad :=
  {| nodos := nodos estad + nodos sub;
     hojas := hojas estad + hojas sub;
     internos := internos estad + internos sub;
     hojas_ocupadas := hojas_ocupadas estad + hojas_ocupadas sub;
     hojas_vacias := hojas_vacias estad + hojas_vacias sub;
     suma_puntos := suma_puntos estad + suma_puntos sub |}.

Fixpoint recursivo (nodo : t) : Estad :=
  match nodo with
  | Nodo pts _ _ _ hs =>
      match hs with
      | [] =>
          let cnt := Z.of_nat (length pts) in
          if 0 <? cnt then
            {| nodos := 1; hojas := 1; internos := 0;
               hojas_ocupadas := 1; hojas_vacias := 0; suma_puntos := cnt |}
          else
            {| nodos := 1; hojas := 1; internos := 0;
               hojas_ocupadas := 0; hojas_vacias := 1; suma_puntos := 0 |}
      | _ :: _ =>
          foldl (λ estad h, acumular estad (recursivo h))
            {| nodos := 1; hojas := 0; internos := 1;
               hojas_ocupadas := 0; hojas_vacias := 0; suma_puntos := 0 |}
            hs
      end
  end.

(** The dictionary returned by [recopilar_estadisticas]. *)
Record Estadisticas : Type := {
  total_nodos : Z; e_hojas : Z; e_internos : Z;
  e_hojas_ocupadas : Z; e_hojas_vacias : Z; promedio_puntos : Q
}.

Definition recopilar_estadisticas {ar : Aritmetica} (self : t)
    : Estadisticas :=
  let raw := recursivo self in
  let prom_hojas :=
    if decide (hojas_ocupadas raw ≠ 0)
    then divide (inject_Z (suma_puntos raw)) (inject_Z (hojas_ocupadas raw))
    else 0%Q in
  {| total_nodos := nodos raw; e_hojas := hojas raw;
     e_internos := internos raw;
     e_hojas_ocupadas := hojas_ocupadas raw;
     e_hojas_vacias := hojas_vacias raw; promedio_puntos := prom_hojas |}.

Fixpoint obtener_nodos_hoja (nodo : t) : list t :=
  match nodo with
  | Nodo _ _ _ _ hs =>
      match hs with
      | [] => [nodo]
      | _ :: _ => foldl (λ hojas h, hojas ++ obtener_nodos_hoja h) [] hs
      end
  end.

End NodoOctree.

(** ** The leaf selection of [visualizar_archivo] (lines 194-208) *)

(** [l[i]] for a Python list. *)
Definition indice {A : Type} (l : list A) (i : Z) : Resultado A :=
  let j := if i <? 0 then i + Z.of_nat (length l) else i in
  if j <? 0 then Lanza "IndexError"
  else match l !! Z.to_nat j with
       | Some a => Devuelve a
       | None => Lanza "IndexError"
       end.

(** [range(n)]. *)
Definition range (n : Z) : list Z := Z.of_nat <$> seq 0 (Z.to_nat n).

(** A list comprehension whose element expression may raise. *)
Fixpoint comprension {A B : Type} (f : A → Resultado B) (l : list A)
    : Resultado (list B) :=
  match l with
  | [] => Devuelve []
  | a :: l' =>
      match f a with
      | Lanza e => Lanza e
      | Devuelve b =>
          match comprension f l' with
          | Lanza e => Lanza e
          | Devuelve bs => Devuelve (b :: bs)
          end
      end
  end.

(** [hojas_ocupadas = [n for n in hojas if len(n.puntos) > 0]]. *)
Definition hojas_ocupadas_de (octree : NodoOctree.t) : list NodoOctree.t :=
  List.filter (λ n, 0 <? Z.of_nat (length (NodoOctree.puntos n)))
    (NodoOctree.obtener_nodos_hoja octree).

(** The index [int(i*paso)] with [paso = T / max_hojas]. *)
Definition indice_muestra {ar : Aritmetica} (T max_hojas i : Z) : Z :=
  let paso := divide (inject_Z T) (inject_Z max_hojas) in
  int_Q (producto (inject_Z i) paso).

(** [seleccionadas] as a function of [hojas_ocupadas] and [max_hojas]. *)
Definition seleccionadas {ar : Aritmetica} {A : Type}
    (hojas_ocupadas : list A) (max_hojas : Z) : Resultado (list A) :=
  let T := Z.of_nat (length hojas_ocupadas) in
  if (0 <? max_hojas) && (max_hojas <? T) then
    comprension (λ i, indice hojas_ocupadas (indice_muestra T max_hojas i))
      (range max_hojas)
  else Devuelve hojas_ocupadas.

(** ** The bounds passed by [comparar_archivo] and [visualizar_archivo]

    [limites = ((pts[:,0].min(), pts[:,1].min(), pts[:,2].min()),
                (pts[:,0].max(), pts[:,1].max(), pts[:,2].max()))]
    (lines 134-135 and 181-182).  The array that [leer_pcd] returns for a
    file without points has a single dimension, and taking its column
    raises [IndexError]. *)
Definition limites_de (pts : list Punto) : Resultado Limites :=
  match pts with
  | [] => Lanza "IndexError"
  | p :: ps =>
      Devuelve ((np_min (px p) (px <$> ps), np_min (py p) (py <$> ps),
                 np_min (pz p) (pz <$> ps)),
                (np_max (px p) (px <$> ps), np_max (py p) (py <$> ps),
                 np_max (pz p) (pz <$> ps)))
  end.

(** ** The automatic parameters of [visualizar_archivo] (lines 183-188)

    [np.ptp(pts, axis=0)] is the difference of the column maxima and minima,
    that is, of the two corners of [limites]. *)
Definition tam_minimo_auto {ar : Aritmetica} (lim : Limites) : Q :=
  divide (NodoOctree.tam_max lim) 50.

Definition maximo_puntos_auto {ar : Aritmetica} (total_puntos : Z) : Z :=
  Z.max (int_Q (divide (inject_Z total_puntos) 1000)) 10.

Definition max_hojas_auto {ar : Aritmetica} (total_puntos : Z) : Z :=
  Z.min (int_Q (divide (inject_Z total_puntos) 10)) 10000.

(** The leaves that [visualizar_archivo] hands to the renderer. *)
Definition visualizar_seleccion {ar : Aritmetica} (fuel : nat)
    (pts : list Punto) : option (Resultado (list NodoOctree.t)) :=
  match limites_de pts with
  | Lanza e => Some (Lanza e)
  | Devuelve limites =>
      let total_puntos := Z.of_nat (length pts) in
      octree ← NodoOctree.__init__ fuel pts limites (tam_minimo_auto limites)
                 (maximo_puntos_auto total_puntos);
      Some (seleccionadas (hojas_ocupadas_de octree)
              (max_hojas_auto total_puntos))
  end.

(** ** The wireframe cube of a selected leaf (lines 211-215)

    [centro] and [longitudes] as passed to [pv.Cube]. *)
Definition centro {ar : Aritmetica} (nodo : NodoOctree.t) : Punto :=
  let '((x0, y0, z0), (x1, y1, z1)) := NodoOctree.limites nodo in
  (divide (suma x0 x1) 2, divide (suma y0 y1) 2, divide (suma z0 z1) 2).

Definition longitudes {ar : Aritmetica} (nodo : NodoOctree.t) : Punto :=
  let '((x0, y0, z0), (x1, y1, z1)) := NodoOctree.limites nodo in
  (resta x1 x0, resta y1 y0, resta z1 z0).

(** ** Sequencing of calls that may raise *)

Definition ligar {A B : Type} (f : A → Resultado B) (r : Resultado A)
    : Resultado B :=
  match r with
  | Devuelve a => f a
  | Lanza e => Lanza e
  end.

#[global] Instance Resultado_bind : MBind Resultado := @ligar.

(** ** Text

    A character of the model is a code point below 256 and a [string] is a
    sequence of them; text with other characters is outside the model. *)

(** [len(s)]. *)
Definition len (s : string) : Z := Z.of_nat (String.length s).

(** [c.isspace()]: the white space of [str.strip] and [str.split]. *)
Definition es_espacio (c : ascii) : bool :=
  let n := nat_of_ascii c in
  ((9 <=? n) && (n <=? 13) || (28 <=? n) && (n <=? 32)
   || (n =? 133) || (n =? 160))%nat.

(** [c.lower()]: the capitals A-Z and those of the Latin-1 supplement. *)
Definition minuscula (c : ascii) : ascii :=
  let n := nat_of_ascii c in
  if ((65 <=? n) && (n <=? 90)
      || (192 <=? n) && (n <=? 222) && negb (n =? 215))%nat
  then ascii_of_nat (n + 32) else c.

Fixpoint lower (s : string) : string :=
  match s with
  | EmptyString => EmptyString
  | String c s' => String (minuscula c) (lower s')
  end.

Fixpoint quitar_espacios (cs : list ascii) : list ascii :=
  match cs with
  | [] => []
  | c :: cs' => if es_espacio c then quitar_espacios cs' else cs
  end.

(** [s.strip()]. *)
Definition strip (s : string) : string :=
  string_of_list_ascii
    (rev (quitar_espacios (rev (quitar_espacios (list_ascii_of_string s))))).

(** The fields of [s.split()], the field being read kept in reverse. *)
Fixpoint split_desde (cs : list ascii) (campo : list ascii) : list string :=
  match cs with
  | [] =>
      match campo with
      | [] => []
      | _ :: _ => [string_of_list_ascii (rev campo)]
      end
  | c :: cs' =>
      if es_espacio c then
        match campo with
        | [] => split_desde cs' []
        | _ :: _ => string_of_list_ascii (rev campo) :: split_desde cs' []
        end
      else split_desde cs' (c :: campo)
  end.

(** [s.split()]. *)
Definition split (s : string) : list string :=
  split_desde (list_ascii_of_string s) [].

(** [c * n] for a character [c]: the empty string when [n <= 0]. *)
Definition repetir (c : ascii) (n : Z) : string :=
  string_of_list_ascii (replicate (Z.to_nat n) c).

(** [s.ljust(W)]. *)
Definition ljust (s : string) (W : Z) : string :=
  (s ++ repetir " " (W - len s))%string.

(** [max(...)] of a sequence of integers: [ValueError] when it is empty. *)
Definition py_max (l : list Z) : Resultado Z :=
  match l with
  | [] => Lanza "ValueError"
  | x :: xs => Devuelve (foldl Z.max x xs)
  end.

(** ** class LectorPCD (lines 12-29)

    The file is given by its lines.  [float_] stands for the conversion
    [float] of a field, which raises [ValueError] on a field that is not a
    number; values that are not finite are outside the model. *)

Module LectorPCD.
Section Lector.
Variable float_ : string → Resultado Q.

(** [linea.strip().lower() == 'data ascii']. *)
Definition es_marca (linea : string) : bool :=
  String.eqb (lower (strip linea)) "data ascii".

(** The first loop: the lines left after the marker line. *)
Fixpoint saltar_cabecera (lineas : list string) : list string :=
  match lineas with
  | [] => []
  | linea :: resto =>
      if es_marca linea then resto else saltar_cabecera resto
  end.

(** The body of the second loop: the point of a line, or nothing for a
    line of fewer than three fields. *)
Definition leer_linea (linea : string) : Resultado (option Punto) :=
  match split (strip linea) with
  | a :: b :: c :: _ =>
      x ← float_ a; y ← float_ b; z ← float_ c; Devuelve (Some (x, y, z))
  | _ => Devuelve None
  end.

(** The second loop. *)
Fixpoint leer_datos (lineas : list string) : Resultado (list Punto) :=
  match lineas with
  | [] => Devuelve []
  | linea :: resto =>
      p ← leer_linea linea;
      puntos ← leer_datos resto;
      Devuelve (match p with Some p => p :: puntos | None => puntos end)
  end.

Definition leer_pcd (lineas : list string) : Resultado (list Punto) :=
  leer_datos (saltar_cabecera lineas).

End Lector.
End LectorPCD.

(** ** The table of [formatear_comparacion] (lines 164-173)

    The function of the lists of lines [columnas], one per configuration;
    it gives the lines printed and the exception raised, if any. *)

(** [len(columnas)]. *)
Definition largo_columnas (columnas : list (list string)) : Z :=
  Z.of_nat (length columnas).

(** One printed line: [''.join(columnas[j][i].ljust(W) + ... for j ...)]. *)
Definition linea_de_tabla (columnas : list (list string)) (W i : Z)
    : Resultado string :=
  piezas ← comprension
    (λ j, c ← indice columnas j;
          x ← indice c i;
          Devuelve (String.append (ljust x W)
                      (if j <? largo_columnas columnas - 1
                       then " | "%string else ""%string)))
    (range (largo_columnas columnas));
  Devuelve (String.concat "" piezas).

(** The loop that prints the lines, after [salida] has been printed. *)
Fixpoint imprimir_lineas (f : Z → Resultado string) (indices : list Z)
    (salida : list string) : list string * option string :=
  match indices with
  | [] => (salida, None)
  | i :: indices' =>
      match f i with
      | Lanza e => (salida, Some e)
      | Devuelve linea => imprimir_lineas f indices' (salida ++ [linea])
      end
  end.

Definition formatear_tabla (columnas : list (list string))
    : list string * option string :=
  match py_max ((λ c, Z.of_nat (length c)) <$> columnas) with
  | Lanza e => ([], Some e)
  | Devuelve L =>
      match ligar py_max
              (comprension (λ c, py_max (len <$> c)) columnas) with
      | Lanza e => ([], Some e)
      | Devuelve ancho =>
          let W := ancho + 2 in
          let n := largo_columnas columnas in
          let borde := repetir "-" (n * W + (n - 1) * len " | ") in
          match imprimir_lineas (linea_de_tabla columnas W) (range L)
                  [borde] with
          | (salida, Some e) => (salida, Some e)
          | (salida, None) => (salida ++ [borde], None)
          end
      end
  end.

(** * Vocabulary of the specification *)

(** Every node of the tree, the root first. *)
Fixpoint todos_los_nodos (nodo : NodoOctree.t) : list NodoOctree.t :=
  match nodo with
  | NodoOctree.Nodo _ _ _ _ hs => nodo :: concat (map todos_los_nodos hs)
  end.

(** The depth of the tree: the number of subdivisions on the longest path
    from the root, 0 for a leaf. *)
Fixpoint profundidad (nodo : NodoOctree.t) : nat :=
  match nodo with
  | NodoOctree.Nodo _ _ _ _ hs =>
      foldr (λ h d, Nat.max (S (profundidad h)) d) O hs
  end.

(** No bucket of the dictionary holds a count below one. *)
Definition cuentas_positivas (rej : gmap (Z * Z * Z) Z) : Prop :=
  map_Forall (λ _ v, 1 <= v) rej.

(** [p] lies in the half-open box [low <= coord < high] on every axis. *)
Definition dentro (sub : Limites) (p : Punto) : Prop :=
  (px sub.1 <= px p ∧ px p < px sub.2)%Q ∧
  (py sub.1 <= py p ∧ py p < py sub.2)%Q ∧
  (pz sub.1 <= pz p ∧ pz p < pz sub.2)%Q.

(** [p] is at or above the min corner on every axis. *)
Definition sobre_minimo (lim : Limites) (p : Punto) : Prop :=
  (px lim.1 <= px p)%Q ∧ (py lim.1 <= py p)%Q ∧ (pz lim.1 <= pz p)%Q.

(** [p] is strictly below the max corner on every axis. *)
Definition bajo_maximo (lim : Limites) (p : Punto) : Prop :=
  (px p < px lim.2)%Q ∧ (py p < py lim.2)%Q ∧ (pz p < pz lim.2)%Q.

(** [p] has a coordinate equal to that of the max corner. *)
Definition en_maximo (lim : Limites) (p : Punto) : Prop :=
  (px p == px lim.2)%Q ∨ (py p == py lim.2)%Q ∨ (pz p == pz lim.2)%Q.

(** The position, in the enumeration of the octants, of the octant on whose
    side of the three midpoints [p] lies. *)
Definition indice_octante {ar : Aritmetica} (lim : Limites) (p : Punto)
    : nat :=
  let '((x0, y0, z0), (x1, y1, z1)) := lim in
  ((if Qle_bool (divide (suma x0 x1) 2) (px p) then 4 else 0) +
   (if Qle_bool (divide (suma y0 y1) 2) (py p) then 2 else 0) +
   (if Qle_bool (divide (suma z0 z1) 2) (pz p) then 1 else 0))%nat.

(** [ceil(log2(q))] for a positive rational [q]: the least [k] with
    [q <= 2^k] (lemma [ceil_log2_spec]). *)
Definition ceil_log2 (q : Q) : Z :=
  if Qle_bool 1 q then Z.log2_up (Qceiling q) else - Z.log2 (Qfloor (/ q)).

(** [not nodo.hijos]. *)
Definition es_hoja (n : NodoOctree.t) : bool :=
  match NodoOctree.hijos n with [] => true | _ :: _ => false end.

Definition tiene_ocho_hijos (n : NodoOctree.t) : bool :=
  (length (NodoOctree.hijos n) =? 8)%nat.

(** [len(n.puntos) > 0]. *)
Definition ocupada (n : NodoOctree.t) : bool :=
  0 <? Z.of_nat (length (NodoOctree.puntos n)).

(** The sum of the point counts of a list of nodes. *)
Definition puntos_en (l : list NodoOctree.t) : Z :=
  suma_Z ((λ n, Z.of_nat (length (NodoOctree.puntos n))) <$> l).

(** [len(l)]. *)
Definition largo {A : Type} (l : list A) : Z := Z.of_nat (length l).

(** The min corner is at or below the max corner on every axis. *)
Definition ordenados (lim : Limites) : Prop :=
  (px lim.1 <= px lim.2)%Q ∧ (py lim.1 <= py lim.2)%Q ∧
  (pz lim.1 <= pz lim.2)%Q.

(** The box [sub] lies within the box [lim]. *)
Definition contenida (sub lim : Limites) : Prop :=
  (px lim.1 <= px sub.1 ∧ px sub.2 <= px lim.2)%Q ∧
  (py lim.1 <= py sub.1 ∧ py sub.2 <= py lim.2)%Q ∧
  (pz lim.1 <= pz sub.1 ∧ pz sub.2 <= pz lim.2)%Q.

(** The largest of the extents of a box on the three axes. *)
Definition extension_maxima {ar : Aritmetica} (lim : Limites) : Q :=
  Qmax (resta (px lim.2) (px lim.1))
    (Qmax (resta (py lim.2) (py lim.1)) (resta (pz lim.2) (pz lim.1))).

(** *** Properties of an arithmetic

    The unit roundoff of float64, [2^-53]. *)
Definition unidad_de_redondeo : Q := 1 # 9007199254740992.

(** The computed midpoint of two numbers lies between them. *)
Definition medio_entre_extremos {ar : Aritmetica} : Prop :=
  ∀ a b : Q,
    ((a <= b → a <= divide (suma a b) 2 ∧ divide (suma a b) 2 <= b) ∧
     (b <= a → b <= divide (suma a b) 2 ∧ divide (suma a b) 2 <= a))%Q.

(** The computed difference of two numbers has the sign of the exact
    one. *)
Definition resta_con_signo {ar : Aritmetica} : Prop :=
  ∀ a b : Q, (a <= b → 0 <= resta b a)%Q.

(** Rounding to nearest: the quotient of two integers, and the product of
    an integer and such a quotient, are computed with a relative error of
    at most [2^-53] each (the integers being float64 values). *)
Definition redondeo_al_mas_cercano {ar : Aritmetica} : Prop :=
  ∀ a b i : Z,
    0 <= a <= 2 ^ 53 → 0 < b <= 2 ^ 53 → 0 <= i <= 2 ^ 53 →
    ∃ d1 d2 : Q,
      (- unidad_de_redondeo <= d1 ∧ d1 <= unidad_de_redondeo ∧
       - unidad_de_redondeo <= d2 ∧ d2 <= unidad_de_redondeo ∧
       divide (inject_Z a) (inject_Z b)
       == inject_Z a / inject_Z b * (1 + d1) ∧
       producto (inject_Z i) (divide (inject_Z a) (inject_Z b))
       == inject_Z i * divide (inject_Z a) (inject_Z b) * (1 + d2))%Q.

(** Every octant has at most half the largest extent of the box that is
    split, as it has when the midpoints and the extents are computed
    without rounding. *)
Definition mitades_exactas {ar : Aritmetica} : Prop :=
  ∀ lim sub : Limites,
    sub ∈ NodoOctree.octantes lim →
    (extension_maxima sub <= extension_maxima lim / 2)%Q.

(** * Properties *)

(** The operations of the exact arithmetic, unfolded. *)
Ltac exacto :=
  cbn [suma resta producto divide desborda division_entera exacta] in *.

(** Linear arithmetic over the rationals, with halves written as products. *)
Ltac qlra :=
  exacto; unfold Qdiv in *; change (/ 2)%Q with (1 # 2)%Q in *; lra.

(** ** Column minima and maxima *)

Lemma np_min_le_head (x : Q) (xs : list Q) : (np_min x xs <= x)%Q.
Proof.
  induction xs as [|y ys IH]; simpl.
  - apply Qle_refl.
  - eapply Qle_trans; [apply Q.le_min_r | exact IH].
Qed.

Lemma np_min_le_elem (x : Q) (xs : list Q) (y : Q) :
  y ∈ xs → (np_min x xs <= y)%Q.
Proof.
  induction 1 as [y ys | y z ys _ IH]; simpl.
  - apply Q.le_min_l.
  - eapply Qle_trans; [apply Q.le_min_r | exact IH].
Qed.

Lemma np_max_ge_head (x : Q) (xs : list Q) : (x <= np_max x xs)%Q.
Proof.
  induction xs as [|y ys IH]; simpl.
  - apply Qle_refl.
  - eapply Qle_trans; [exact IH | apply Q.le_max_r].
Qed.

Lemma np_max_ge_elem (x : Q) (xs : list Q) (y : Q) :
  y ∈ xs → (y <= np_max x xs)%Q.
Proof.
  induction 1 as [y ys | y z ys _ IH]; simpl.
  - apply Q.le_max_l.
  - eapply Qle_trans; [exact IH | apply Q.le_max_r].
Qed.

(** The corner computed by [np.min(puntos, axis=0)] is below every point,
    the one computed by [np.max(puntos, axis=0)] above. *)
Lemma np_min_axis0_cota (pts : list Punto) (m p : Punto) :
  np_min_axis0 pts = Devuelve m → p ∈ pts →
  (px m <= px p)%Q ∧ (py m <= py p)%Q ∧ (pz m <= pz p)%Q.
Proof.
  destruct pts as [|p0 ps]; [discriminate|].
  intros [= <-] Hp. apply elem_of_cons in Hp as [-> | Hp].
  - repeat split; apply np_min_le_head.
  - repeat split; apply np_min_le_elem, list_elem_of_fmap; eauto.
Qed.

Lemma np_max_axis0_cota (pts : list Punto) (m p : Punto) :
  np_max_axis0 pts = Devuelve m → p ∈ pts →
  (px p <= px m)%Q ∧ (py p <= py m)%Q ∧ (pz p <= pz m)%Q.
Proof.
  destruct pts as [|p0 ps]; [discriminate|].
  intros [= <-] Hp. apply elem_of_cons in Hp as [-> | Hp].
  - repeat split; apply np_max_ge_head.
  - repeat split; apply np_max_ge_elem, list_elem_of_fmap; eauto.
Qed.

(** ** The occupancy grid *)

Section Rejilla.
Import RejillaOcupacion.
Context {ar : Aritmetica}.

Lemma suma_Z_Permutation (l1 l2 : list Z) :
  l1 ≡ₚ l2 → suma_Z l1 = suma_Z l2.
Proof. unfold suma_Z. induction 1; simpl; lia. Qed.

Lemma suma_Z_cons (x : Z) (l : list Z) : suma_Z (x :: l) = x + suma_Z l.
Proof. reflexivity. Qed.

(** Writing one entry of the dictionary changes the sum of its values by
    the difference between the new and the old value. *)
Lemma suma_valores_insert (rej : gmap (Z * Z * Z) Z) (k : Z * Z * Z) (v : Z) :
  suma_Z (valores (<[k := v]> rej))
  = suma_Z (valores rej) - default 0 (rej !! k) + v.
Proof.
  unfold valores. destruct (rej !! k) as [v0|] eqn:Hk; simpl.
  - rewrite <- (insert_delete_eq rej).
    rewrite (suma_Z_Permutation _ ((k, v) :: map_to_list (delete k rej)).*2).
    + rewrite <- (suma_Z_Permutation _ _
                    (fmap_Permutation snd _ _ (map_to_list_delete rej k v0 Hk))).
      rewrite !fmap_cons, !suma_Z_cons. simpl snd. lia.
    + apply fmap_Permutation, map_to_list_insert, lookup_delete_eq.
  - rewrite (suma_Z_Permutation _ ((k, v) :: map_to_list rej).*2).
    + rewrite fmap_cons, suma_Z_cons. simpl snd. lia.
    + apply fmap_Permutation, map_to_list_insert, Hk.
Qed.

Lemma suma_valores_contar xmin ymin zmin tam rej p :
  suma_Z (valores (contar xmin ymin zmin tam rej p))
  = suma_Z (valores rej) + 1.
Proof. unfold contar. rewrite suma_valores_insert. lia. Qed.

Lemma suma_valores_poblar xmin ymin zmin tam pts rej :
  suma_Z (valores (_poblar xmin ymin zmin tam pts rej))
  = suma_Z (valores rej) + Z.of_nat (length pts).
Proof.
  unfold _poblar. revert rej.
  induction pts as [|p ps IH]; intros rej; simpl.
  - lia.
  - rewrite IH, suma_valores_contar. lia.
Qed.

Lemma cuentas_positivas_contar xmin ymin zmin tam rej p :
  cuentas_positivas rej →
  cuentas_positivas (contar xmin ymin zmin tam rej p).
Proof.
  intros Hrej. unfold contar. apply map_Forall_insert_2; [|exact Hrej].
  destruct (rej !! _) as [v|] eqn:Hk; simpl; [|lia].
  specialize (Hrej _ _ Hk). simpl in Hrej. lia.
Qed.

Lemma cuentas_positivas_poblar xmin ymin zmin tam pts rej :
  cuentas_positivas rej →
  cuentas_positivas (_poblar xmin ymin zmin tam pts rej).
Proof.
  unfold _poblar. revert rej.
  induction pts as [|p ps IH]; intros rej Hrej; simpl; [done|].
  by apply IH, cuentas_positivas_contar.
Qed.

(** A bucket, once present, stays present. *)
Lemma poblar_conserva_claves xmin ymin zmin tam pts rej k :
  is_Some (rej !! k) →
  is_Some (_poblar xmin ymin zmin tam pts rej !! k).
Proof.
  unfold _poblar. revert rej.
  induction pts as [|p ps IH]; intros rej Hk; simpl; [done|].
  apply IH. unfold contar. apply lookup_insert_is_Some'. by right.
Qed.

(** Every point of the cloud has its bucket in the dictionary. *)
Lemma poblar_clave_presente xmin ymin zmin tam pts rej p :
  p ∈ pts →
  is_Some (_poblar xmin ymin zmin tam pts rej !! clave xmin ymin zmin tam p).
Proof.
  unfold _poblar. revert rej.
  induction pts as [|q qs IH]; intros rej Hp; [by apply elem_of_nil in Hp|].
  apply elem_of_cons in Hp as [-> | Hp]; simpl.
  - apply (poblar_conserva_claves xmin ymin zmin tam qs).
    unfold contar. rewrite lookup_insert_eq. eauto.
  - by apply IH.
Qed.

Lemma int_floor_div_no_cero (a b : Q) :
  ¬ (b == 0)%Q →
  int_floor_div a b = if desborda a b then Lanza "OverflowError"
                      else Devuelve (Qfloor (divide a b)).
Proof.
  intros Hb. unfold int_floor_div.
  destruct (Qeq_bool b 0) eqn:E; [|done].
  by apply Qeq_bool_eq in E.
Qed.

Lemma int_floor_div_cero (a b : Q) :
  (b == 0)%Q →
  ∃ e, int_floor_div a b = Lanza e ∧
       (e = "OverflowError"%string ∨ e = "ValueError"%string).
Proof.
  intros Hb%Qeq_eq_bool. unfold int_floor_div. rewrite Hb.
  destruct (Qeq_bool a 0); eauto.
Qed.

(** The construction of the grid on a non-empty cloud with a non-zero cell
    size, unfolded: it fails when one of the three quotients overflows, and
    returns the grid otherwise. *)
Lemma init_no_cero (p : Punto) (ps : list Punto) (tam : Q) :
  ¬ (tam == 0)%Q →
  ∃ xmin ymin zmin xmax ymax zmax,
    np_min_axis0 (p :: ps) = Devuelve (xmin, ymin, zmin) ∧
    np_max_axis0 (p :: ps) = Devuelve (xmax, ymax, zmax) ∧
    __init__ (p :: ps) tam =
      if desborda (resta xmax xmin) tam || desborda (resta ymax ymin) tam
         || desborda (resta zmax zmin) tam
      then Lanza "OverflowError"
      else
      Devuelve {| puntos := p :: ps; tam_celda := tam;
                  x_minimo := xmin; y_minimo := ymin; z_minimo := zmin;
                  x_maximo := xmax; y_maximo := ymax; z_maximo := zmax;
                  total_celdas :=
                    (Qfloor (divide (resta xmax xmin) tam) + 1)
                    * (Qfloor (divide (resta ymax ymin) tam) + 1)
                    * (Qfloor (divide (resta zmax zmin) tam) + 1);
                  rejilla := _poblar xmin ymin zmin tam (p :: ps) ∅ |}.
Proof.
  intros Htam. do 6 eexists. split; [reflexivity|]. split; [reflexivity|].
  unfold __init__, np_min_axis0, np_max_axis0.
  rewrite !int_floor_div_no_cero by done.
  by repeat destruct (desborda _ tam).
Qed.

End Rejilla.

(** ** The octree: structure of constructed trees *)

Lemma Forall2_elem_r {A B : Type} (P : A → B → Prop) (l : list A)
    (k : list B) (y : B) :
  Forall2 P l k → y ∈ k → ∃ x, x ∈ l ∧ P x y.
Proof.
  intros HP [i Hi]%list_elem_of_lookup.
  destruct (Forall2_lookup_r _ _ _ _ _ HP Hi) as (x & Hx & Hxy).
  exists x. split; [|done]. apply list_elem_of_lookup. eauto.
Qed.

Section Octree.
Import NodoOctree.
Context {ar : Aritmetica}.

(** Induction on a tree, with the hypothesis for all children. *)
Lemma t_ind_anidado (P : t → Prop) :
  (∀ pts lim tmin maxp hs, Forall P hs → P (Nodo pts lim tmin maxp hs)) →
  ∀ n, P n.
Proof.
  intros Hnodo. fix IH 1. intros [pts lim tmin maxp hs].
  apply Hnodo. induction hs as [|h hs IHhs]; constructor.
  - apply IH.
  - exact IHhs.
Qed.

Lemma todos_los_nodos_raiz (n : t) : n ∈ todos_los_nodos n.
Proof. destruct n. simpl. apply list_elem_of_here. Qed.

Lemma todos_los_nodos_hijo (n h m : t) :
  h ∈ hijos n → m ∈ todos_los_nodos h → m ∈ todos_los_nodos n.
Proof.
  destruct n as [pts lim tmin maxp hs]. simpl. intros Hh Hm.
  apply list_elem_of_further, list_elem_of_In, in_concat.
  exists (todos_los_nodos h). split.
  - apply in_map, list_elem_of_In, Hh.
  - apply list_elem_of_In, Hm.
Qed.

Lemma todos_los_nodos_inv (n m : t) :
  m ∈ todos_los_nodos n →
  m = n ∨ ∃ h, h ∈ hijos n ∧ m ∈ todos_los_nodos h.
Proof.
  destruct n as [pts lim tmin maxp hs]. simpl. intros Hm.
  apply elem_of_cons in Hm as [-> | Hm]; [by left | right].
  apply list_elem_of_In, in_concat in Hm as (l & Hl & Hm).
  apply in_map_iff in Hl as (h & <- & Hh).
  exists h. split; by apply list_elem_of_In.
Qed.

(** *** One step of the constructor *)

Lemma init_hoja fuel pts lim tmin maxp :
  debe_subdividir pts lim tmin maxp = false →
  __init__ fuel pts lim tmin maxp = Some (Nodo pts lim tmin maxp []).
Proof. intros Hd. destruct fuel; simpl; by rewrite Hd. Qed.

Lemma init_interno fuel pts lim tmin maxp n :
  debe_subdividir pts lim tmin maxp = true →
  __init__ fuel pts lim tmin maxp = Some n →
  ∃ fuel' hs,
    fuel = S fuel' ∧ n = Nodo pts lim tmin maxp hs ∧
    Forall2 (λ sub h,
               __init__ fuel' (List.filter (mascara sub) pts) sub tmin maxp
               = Some h)
            (octantes lim) hs.
Proof.
  intros Hd. destruct fuel as [|fuel']; simpl; rewrite Hd; [discriminate|].
  destruct (mapM _ _) as [hs|] eqn:Hhs; simpl; [|discriminate].
  intros [= <-]. exists fuel', hs. by apply mapM_Some in Hhs.
Qed.

Lemma init_campos fuel pts lim tmin maxp n :
  __init__ fuel pts lim tmin maxp = Some n →
  puntos n = pts ∧ limites n = lim ∧
  tam_minimo n = tmin ∧ maximo_puntos n = maxp.
Proof.
  destruct (debe_subdividir pts lim tmin maxp) eqn:Hd; intros Hn.
  - by destruct (init_interno _ _ _ _ _ _ Hd Hn) as (? & ? & _ & -> & _).
  - rewrite init_hoja in Hn by done. by injection Hn as <-.
Qed.

(** The children of a constructed node: none when the test of
    [_subdividir_o_hoja] fails, and otherwise one per octant, constructed
    from the rows selected by [mascara]. *)
Lemma init_hijos fuel pts lim tmin maxp n :
  __init__ fuel pts lim tmin maxp = Some n →
  if debe_subdividir pts lim tmin maxp then
    ∃ fuel', fuel = S fuel' ∧
      Forall2 (λ sub h,
                 __init__ fuel' (List.filter (mascara sub) pts) sub tmin maxp
                 = Some h)
              (octantes lim) (hijos n)
  else hijos n = [].
Proof.
  destruct (debe_subdividir pts lim tmin maxp) eqn:Hd; intros Hn.
  - destruct (init_interno _ _ _ _ _ _ Hd Hn) as (f & hs & -> & -> & Hhs).
    by exists f.
  - rewrite init_hoja in Hn by done. by injection Hn as <-.
Qed.

(** Every node of a constructed tree is itself the result of a call of the
    constructor, with the thresholds of the root; below the root, its points
    are the rows selected by the mask of its own bounds. *)
Lemma init_subnodos fuel pts lim tmin maxp raiz n :
  __init__ fuel pts lim tmin maxp = Some raiz →
  n ∈ todos_los_nodos raiz →
  n = raiz ∨
  ∃ fuel' pts' sub,
    __init__ fuel' (List.filter (mascara sub) pts') sub tmin maxp = Some n.
Proof.
  revert pts lim raiz. induction fuel as [|fuel IH]; intros pts lim raiz Hr Hn.
  - destruct (debe_subdividir pts lim tmin maxp) eqn:Hd.
    + by destruct (init_interno _ _ _ _ _ _ Hd Hr) as (? & ? & ? & _).
    + rewrite init_hoja in Hr by done. injection Hr as <-.
      left. simpl in Hn. by apply list_elem_of_singleton in Hn.
  - apply todos_los_nodos_inv in Hn as [-> | (h & Hh & Hn)]; [by left|].
    right. pose proof (init_hijos _ _ _ _ _ _ Hr) as Hhs.
    destruct (debe_subdividir pts lim tmin maxp).
    + destruct Hhs as (f & [= <-] & Hhs).
      destruct (Forall2_elem_r _ _ _ _ Hhs Hh) as (sub & _ & Hsub).
      destruct (IH _ _ _ Hsub Hn) as [-> | ?]; eauto.
    + rewrite Hhs in Hh. by apply elem_of_nil in Hh.
Qed.

Lemma init_subnodos_construidos fuel pts lim tmin maxp raiz n :
  __init__ fuel pts lim tmin maxp = Some raiz →
  n ∈ todos_los_nodos raiz →
  ∃ fuel' pts' lim', __init__ fuel' pts' lim' tmin maxp = Some n.
Proof.
  intros Hr Hn.
  destruct (init_subnodos _ _ _ _ _ _ _ Hr Hn) as [-> | (f & ps & sub & H)];
    eauto.
Qed.

(** A result does not depend on the fuel that was left over. *)
Lemma init_mas_fuel fuel fuel' pts lim tmin maxp n :
  __init__ fuel pts lim tmin maxp = Some n → (fuel ≤ fuel')%nat →
  __init__ fuel' pts lim tmin maxp = Some n.
Proof.
  revert fuel' pts lim n.
  induction fuel as [|fuel IH]; intros fuel' pts lim n Hn Hle.
  - destruct (debe_subdividir pts lim tmin maxp) eqn:Hd.
    + by destruct (init_interno _ _ _ _ _ _ Hd Hn) as (? & ? & ? & _).
    + rewrite init_hoja in Hn |- * by done. done.
  - destruct (debe_subdividir pts lim tmin maxp) eqn:Hd.
    + destruct (init_interno _ _ _ _ _ _ Hd Hn) as (f & hs & [= <-] & -> & Hhs).
      destruct fuel' as [|fuel']; [lia|]. simpl. rewrite Hd.
      erewrite mapM_Some_2; [done|].
      eapply Forall2_impl; [exact Hhs|]. intros sub h Hh. simpl in Hh.
      apply IH; [done | lia].
    + rewrite init_hoja in Hn |- * by done. done.
Qed.

End Octree.

(** ** The octree: geometry of a subdivision *)

Lemma Qge_bool_iff (a b : Q) : Qge_bool a b = true ↔ (b <= a)%Q.
Proof. apply Qle_bool_iff. Qed.

Lemma Qlt_bool_iff (a b : Q) : Qlt_bool a b = true ↔ (a < b)%Q.
Proof.
  unfold Qlt_bool. rewrite negb_true_iff. split.
  - intros Hab. apply Qnot_le_lt. intros Hle%Qle_bool_iff. congruence.
  - intros Hab. destruct (Qle_bool b a) eqn:Hba; [|done].
    apply Qle_bool_iff in Hba. lra.
Qed.

Lemma Qle_bool_false_iff (a b : Q) : Qle_bool a b = false ↔ (b < a)%Q.
Proof.
  rewrite <- Qlt_bool_iff. unfold Qlt_bool. by rewrite negb_true_iff.
Qed.

Section Geometria.
Import NodoOctree.
Context {ar : Aritmetica}.

Lemma mascara_dentro (sub : Limites) (p : Punto) :
  mascara sub p = true ↔ dentro sub p.
Proof.
  unfold mascara, dentro.
  rewrite !andb_true_iff, !Qge_bool_iff, !Qlt_bool_iff. tauto.
Qed.

Lemma octantes_lista (x0 y0 z0 x1 y1 z1 : Q) :
  octantes ((x0, y0, z0), (x1, y1, z1)) =
  let mx := divide (suma x0 x1) 2 in
  let my := divide (suma y0 y1) 2 in
  let mz := divide (suma z0 z1) 2 in
  [ ((x0, y0, z0), (mx, my, mz)); ((x0, y0, mz), (mx, my, z1));
    ((x0, my, z0), (mx, y1, mz)); ((x0, my, mz), (mx, y1, z1));
    ((mx, y0, z0), (x1, my, mz)); ((mx, y0, mz), (x1, my, z1));
    ((mx, my, z0), (x1, y1, mz)); ((mx, my, mz), (x1, y1, z1)) ].
Proof. reflexivity. Qed.

Lemma length_octantes (lim : Limites) : length (octantes lim) = 8%nat.
Proof. by destruct lim as [[[? ?] ?] [[? ?] ?]]. Qed.

(** [np.max] of three numbers is an upper bound and one of them. *)
Lemma np_max3_cotas (a b c : Q) :
  (a <= np_max a [b; c] ∧ b <= np_max a [b; c] ∧ c <= np_max a [b; c] ∧
   (np_max a [b; c] == a ∨ np_max a [b; c] == b ∨ np_max a [b; c] == c))%Q.
Proof.
  unfold np_max. simpl.
  destruct (Q.max_spec c a) as [[? H1] | [? H1]],
           (Q.max_spec b (Qmax c a)) as [[? H2] | [? H2]];
    rewrite H2, ?H1; repeat split; try lra; auto with qarith.
Qed.

Lemma Qmax3_cotas (a b c : Q) :
  (a <= Qmax a (Qmax b c) ∧ b <= Qmax a (Qmax b c) ∧
   c <= Qmax a (Qmax b c) ∧
   (Qmax a (Qmax b c) == a ∨ Qmax a (Qmax b c) == b
    ∨ Qmax a (Qmax b c) == c))%Q.
Proof.
  destruct (Q.max_spec b c) as [[? H1] | [? H1]],
           (Q.max_spec a (Qmax b c)) as [[? H2] | [? H2]];
    rewrite H2, ?H1; repeat split; try lra; auto with qarith.
Qed.

(** The number that [_subdividir_o_hoja] compares with [tam_minimo] is the
    largest of the three extents of the bounds. *)
Lemma tam_max_extension (lim : Limites) :
  (tam_max lim == extension_maxima lim)%Q.
Proof.
  destruct lim as [[[x0 y0] z0] [[x1 y1] z1]].
  unfold tam_max, extension_maxima, px, py, pz. cbn [fst snd].
  pose proof (np_max3_cotas (resta x1 x0) (resta y1 y0) (resta z1 z0)) as H1.
  pose proof (Qmax3_cotas (resta x1 x0) (resta y1 y0) (resta z1 z0)) as H2.
  revert H1 H2.
  generalize (np_max (resta x1 x0) [resta y1 y0; resta z1 z0]).
  generalize (Qmax (resta x1 x0) (Qmax (resta y1 y0) (resta z1 z0))).
  intros m m' H1 H2. lra.
Qed.

(** A point of the half-open parent box passes the mask of exactly the
    octant at [indice_octante], wherever the computed midpoints lie. *)
Lemma mascara_indice (lim sub : Limites) (p : Punto) (j : nat) :
  dentro lim p → octantes lim !! j = Some sub →
  mascara sub p = true ↔ j = indice_octante lim p.
Proof.
  destruct lim as [[[x0 y0] z0] [[x1 y1] z1]], p as [[x y] z].
  rewrite octantes_lista, mascara_dentro. cbv zeta.
  unfold indice_octante, dentro, px, py, pz. simpl.
  generalize (divide (suma x0 x1) 2), (divide (suma y0 y1) 2),
    (divide (suma z0 z1) 2).
  intros mx my mz Hp Hj.
  destruct (Qle_bool mx x) eqn:Ex;
    [apply Qle_bool_iff in Ex | apply Qle_bool_false_iff in Ex];
  (destruct (Qle_bool my y) eqn:Ey;
    [apply Qle_bool_iff in Ey | apply Qle_bool_false_iff in Ey]);
  (destruct (Qle_bool mz z) eqn:Ez;
    [apply Qle_bool_iff in Ez | apply Qle_bool_false_iff in Ez]);
  simpl;
  do 8 (destruct j as [|j];
        [injection Hj as <-; simpl;
         (split; [intros ?; first [reflexivity | exfalso; lra]
                 | intros ?; first [discriminate | lra]]) |]);
  discriminate.
Qed.

(** When the computed midpoints lie between the corners, every octant is
    part of the box that is split. *)
Lemma octante_dentro (lim sub : Limites) (p : Punto) :
  medio_entre_extremos →
  sub ∈ octantes lim → dentro sub p → dentro lim p.
Proof.
  intros Hmedio.
  destruct lim as [[[x0 y0] z0] [[x1 y1] z1]], p as [[x y] z].
  rewrite octantes_lista. cbv zeta.
  pose proof (Hmedio x0 x1) as [Hx Hx'].
  pose proof (Hmedio y0 y1) as [Hy Hy'].
  pose proof (Hmedio z0 z1) as [Hz Hz'].
  revert Hx Hx' Hy Hy' Hz Hz'.
  generalize (divide (suma x0 x1) 2), (divide (suma y0 y1) 2),
    (divide (suma z0 z1) 2).
  intros mx my mz Hx Hx' Hy Hy' Hz Hz' Hsub.
  assert ((x0 <= mx ∧ mx <= x1) ∨ (x1 <= mx ∧ mx <= x0))%Q as Hmx
    by (destruct (Qlt_le_dec x1 x0); [right; apply Hx' | left; apply Hx];
        lra).
  assert ((y0 <= my ∧ my <= y1) ∨ (y1 <= my ∧ my <= y0))%Q as Hmy
    by (destruct (Qlt_le_dec y1 y0); [right; apply Hy' | left; apply Hy];
        lra).
  assert ((z0 <= mz ∧ mz <= z1) ∨ (z1 <= mz ∧ mz <= z0))%Q as Hmz
    by (destruct (Qlt_le_dec z1 z0); [right; apply Hz' | left; apply Hz];
        lra).
  clear Hx Hx' Hy Hy' Hz Hz'.
  repeat (apply elem_of_cons in Hsub as [-> | Hsub]);
    [..| by apply elem_of_nil in Hsub];
    unfold dentro, px, py, pz; simpl; intros Hd;
    destruct Hmx, Hmy, Hmz; repeat split; lra.
Qed.

(** A point with a coordinate on the max face of the parent box passes the
    mask of no octant. *)
Lemma mascara_en_maximo (lim sub : Limites) (p : Punto) :
  medio_entre_extremos →
  sub ∈ octantes lim → en_maximo lim p → mascara sub p = false.
Proof.
  intros Hmedio Hsub Hmax.
  destruct (mascara sub p) eqn:Hm; [|done]. apply mascara_dentro in Hm.
  apply (octante_dentro lim sub p Hmedio Hsub) in Hm.
  destruct Hm as ((_ & Hx) & (_ & Hy) & (_ & Hz)).
  destruct Hmax as [H | [H | H]]; lra.
Qed.

End Geometria.

(** ** The exact arithmetic has the properties of an arithmetic *)

Section Exacta.
Import NodoOctree.

Lemma medio_exacto : @medio_entre_extremos exacta.
Proof. intros a b. repeat split; intros; qlra. Qed.

Lemma resta_exacta : @resta_con_signo exacta.
Proof. intros a b Hab. qlra. Qed.

Lemma redondeo_exacto : @redondeo_al_mas_cercano exacta.
Proof.
  intros a b i _ _ _. exists 0%Q, 0%Q. exacto.
  unfold unidad_de_redondeo. repeat split; try done; ring.
Qed.

(** Each octant has half the extent of the box that is split. *)
Lemma mitades_exacto : @mitades_exactas exacta.
Proof.
  intros lim sub.
  destruct lim as [[[x0 y0] z0] [[x1 y1] z1]].
  rewrite octantes_lista. cbv zeta. intros Hsub.
  unfold extension_maxima at 2. unfold px, py, pz. cbn [fst snd].
  pose proof (Qmax3_cotas (resta x1 x0) (resta y1 y0) (resta z1 z0)) as Hlim.
  revert Hlim.
  generalize (Qmax (resta x1 x0) (Qmax (resta y1 y0) (resta z1 z0))).
  intros m Hm.
  repeat (apply elem_of_cons in Hsub as [-> | Hsub]);
    [..| by apply elem_of_nil in Hsub];
    unfold extension_maxima, px, py, pz; cbn [fst snd];
    repeat apply Q.max_lub; qlra.
Qed.

End Exacta.

(** ** The arithmetic of the machine on some operands

    [11 * (30 / 22)] is 14.999999999999998; [1 / 0.1] is 10 while
    [1 // 0.1] is 9; the midpoint of [2^53] and [2^53 + 2] is [2^53]; and
    [1 / 2^-1070] overflows. *)
Example binario64_ejemplos :
  let decimo := (3602879701896397 # 36028797018963968)%Q in
  @producto binario64 11 (@divide binario64 30 22)
  = (8444249301319679 # 562949953421312)%Q ∧
  @divide binario64 1 decimo = 10%Q ∧
  @division_entera binario64 1 decimo = 9 ∧
  @divide binario64
    (@suma binario64 (inject_Z (2 ^ 53)) (inject_Z (2 ^ 53 + 2))) 2
  = inject_Z (2 ^ 53) ∧
  @desborda binario64 1 (1 # Pos.pow 2 1070) = true ∧
  @desborda binario64 1 (1 # Pos.pow 2 1000) = false.
Proof. cbv zeta. repeat split; by vm_compute. Qed.

(** ** The occupancy grid: construction and statistics *)

Section RejillaTeoremas.
Import RejillaOcupacion.
Context {ar : Aritmetica}.

(** A grid is only returned for a non-empty cloud and a non-zero cell
    size, and then it is the one of [init_no_cero]. *)
Lemma init_devuelve (pts : list Punto) (tam : Q) (g : t) :
  __init__ pts tam = Devuelve g →
  ∃ xmin ymin zmin xmax ymax zmax,
    np_min_axis0 pts = Devuelve (xmin, ymin, zmin) ∧
    np_max_axis0 pts = Devuelve (xmax, ymax, zmax) ∧
    g = {| puntos := pts; tam_celda := tam;
           x_minimo := xmin; y_minimo := ymin; z_minimo := zmin;
           x_maximo := xmax; y_maximo := ymax; z_maximo := zmax;
           total_celdas := (Qfloor (divide (resta xmax xmin) tam) + 1)
                           * (Qfloor (divide (resta ymax ymin) tam) + 1)
                           * (Qfloor (divide (resta zmax zmin) tam) + 1);
           rejilla := _poblar xmin ymin zmin tam pts ∅ |}.
Proof.
  destruct pts as [|p ps]; [discriminate|].
  destruct (Qeq_bool tam 0) eqn:Htam.
  - unfold __init__, np_min_axis0, np_max_axis0.
    destruct (int_floor_div_cero
                (resta (np_max (px p) (px <$> ps))
                   (np_min (px p) (px <$> ps))) tam)
      as (e & -> & _); [by apply Qeq_bool_eq | discriminate].
  - assert (¬ (tam == 0)%Q) as Hne.
    { intros H%Qeq_eq_bool. congruence. }
    destruct (init_no_cero p ps tam Hne)
      as (xmin & ymin & zmin & xmax & ymax & zmax & Hmin & Hmax & Hg).
    rewrite Hg. destruct (_ || _); [discriminate|].
    intros [= <-]. by exists xmin, ymin, zmin, xmax, ymax, zmax.
Qed.

Lemma suma_valores_vacio : suma_Z (valores ∅) = 0.
Proof. unfold valores. by rewrite map_to_list_empty. Qed.

Lemma init_suma (pts : list Punto) (tam : Q) (g : t) :
  __init__ pts tam = Devuelve g →
  suma_Z (valores (rejilla g)) = Z.of_nat (length pts).
Proof.
  intros (? & ? & ? & ? & ? & ? & _ & _ & ->)%init_devuelve. simpl.
  rewrite suma_valores_poblar, suma_valores_vacio. lia.
Qed.

Lemma init_cuentas_positivas (pts : list Punto) (tam : Q) (g : t) :
  __init__ pts tam = Devuelve g → cuentas_positivas (rejilla g).
Proof.
  intros (? & ? & ? & ? & ? & ? & _ & _ & ->)%init_devuelve. simpl.
  apply cuentas_positivas_poblar, map_Forall_empty.
Qed.

Lemma np_max_alcanzado (x : Q) (xs : list Q) :
  (np_max x xs == x)%Q ∨ ∃ y, y ∈ xs ∧ (np_max x xs == y)%Q.
Proof.
  induction xs as [|a xs IH]; [by left|]. simpl.
  destruct (Q.max_spec a (np_max x xs)) as [[_ H] | [_ H]].
  - destruct IH as [IH | (y & Hy & IH)].
    + left. by rewrite H.
    + right. exists y. split; [by apply list_elem_of_further|].
      by rewrite H.
  - right. exists a. split; [apply list_elem_of_here | exact H].
Qed.

(** Some point of the cloud lies on the maximum of the first axis. *)
Lemma np_max_axis0_alcanzado (pts : list Punto) (m : Punto) :
  np_max_axis0 pts = Devuelve m → ∃ p, p ∈ pts ∧ (px p == px m)%Q.
Proof.
  destruct pts as [|p0 ps]; [discriminate|]. intros [= <-].
  destruct (np_max_alcanzado (px p0) (px <$> ps)) as [H | (y & Hy & H)].
  - exists p0. split; [apply list_elem_of_here|]. simpl. by symmetry.
  - apply list_elem_of_fmap in Hy as (p & -> & Hp).
    exists p. split; [by apply list_elem_of_further|]. simpl. by symmetry.
Qed.

End RejillaTeoremas.

(** C1 (refuted as stated).  In float64 arithmetic the grid is not built
    for every positive cell size: with a cell size of [2^-1070] the quotient
    of the extent 1 of the cloud overflows, and the constructor raises
    [OverflowError].  And the number of cells is computed from the rounded
    quotient: with the float64 cell size 0.1 the quotient [1 / 0.1] rounds
    to 10, so that there are [11] cells on each axis, while the floor of
    the exact quotient is 9. *)
Lemma rejilla_desbordada :
  (0 < 1 # Pos.pow 2 1070)%Q ∧
  @RejillaOcupacion.__init__ binario64 [(0, 0, 0); (1, 1, 1)]%Q
    (1 # Pos.pow 2 1070)
  = Lanza "OverflowError" ∧
  let tam := (3602879701896397 # 36028797018963968)%Q in
  (0 < tam)%Q ∧
  ∃ g,
    @RejillaOcupacion.__init__ binario64 [(0, 0, 0); (1, 1, 1)]%Q tam
    = Devuelve g ∧
    RejillaOcupacion.total_celdas g = 11 * 11 * 11 ∧
    (Qfloor ((1 - 0) / tam) + 1) * (Qfloor ((1 - 0) / tam) + 1)
    * (Qfloor ((1 - 0) / tam) + 1) = 10 * 10 * 10.
Proof.
  split; [reflexivity|]. split; [by vm_compute|]. cbv zeta.
  split; [reflexivity|]. eexists. split; [by vm_compute|].
  split; by vm_compute.
Qed.

(** C1 (amended).  For every non-empty point set and every cell size above
    zero, in every arithmetic: the constructor raises [OverflowError] when
    one of the quotients [(max_i - min_i) / tam_celda] overflows, and builds
    the grid otherwise; the sum of its bucket counts is the number of
    points; every stored count is at least one, so that [ocupadas], the
    number of stored buckets, is the number of non-empty buckets;
    [ocupadas + vacias = total_celdas]; and [total_celdas] is [nx * ny * nz]
    with [n_i = floor(q_i) + 1], where [q_i] is the quotient
    [(max_i - min_i) / tam_celda] as the arithmetic computes it. *)
Theorem rejilla_invariantes {ar : Aritmetica} (pts : list Punto) (tam : Q) :
  pts ≠ [] → (0 < tam)%Q →
  ∃ xmin ymin zmin xmax ymax zmax,
    np_min_axis0 pts = Devuelve (xmin, ymin, zmin) ∧
    np_max_axis0 pts = Devuelve (xmax, ymax, zmax) ∧
    if desborda (resta xmax xmin) tam || desborda (resta ymax ymin) tam
       || desborda (resta zmax zmin) tam
    then RejillaOcupacion.__init__ pts tam = Lanza "OverflowError"
    else
      ∃ g,
        RejillaOcupacion.__init__ pts tam = Devuelve g ∧
        suma_Z (RejillaOcupacion.valores (RejillaOcupacion.rejilla g))
        = Z.of_nat (length pts) ∧
        (∀ k v, RejillaOcupacion.rejilla g !! k = Some v → 1 <= v) ∧
        let e := RejillaOcupacion.estadisticas_celdas g in
        RejillaOcupacion.ocupadas e
        = Z.of_nat (size (RejillaOcupacion.rejilla g)) ∧
        RejillaOcupacion.ocupadas e + RejillaOcupacion.vacias e
        = RejillaOcupacion.e_total_celdas e ∧
        RejillaOcupacion.e_total_celdas e
        = (Qfloor (divide (resta xmax xmin) tam) + 1)
          * (Qfloor (divide (resta ymax ymin) tam) + 1)
          * (Qfloor (divide (resta zmax zmin) tam) + 1).
Proof.
  intros Hpts Htam. destruct pts as [|p ps]; [done|].
  assert (¬ (tam == 0)%Q) as Hne by lra.
  destruct (init_no_cero p ps tam Hne)
    as (xmin & ymin & zmin & xmax & ymax & zmax & Hmin & Hmax & Hg).
  exists xmin, ymin, zmin, xmax, ymax, zmax.
  split; [exact Hmin|]. split; [exact Hmax|].
  destruct (_ || _); [exact Hg|].
  eexists. split; [exact Hg|].
  split; [exact (init_suma _ _ _ Hg)|].
  split; [exact (init_cuentas_positivas _ _ _ Hg)|].
  simpl. repeat split. lia.
Qed.

Lemma rejilla_invariantes_witness :
  ∃ g, RejillaOcupacion.__init__ [(0, 0, 0); (1, 1, 1); (1, 1, 1)]%Q 1
       = Devuelve g ∧
       suma_Z (RejillaOcupacion.valores (RejillaOcupacion.rejilla g)) = 3 ∧
       RejillaOcupacion.e_total_celdas
         (RejillaOcupacion.estadisticas_celdas g) = 8.
Proof.
  destruct (@rejilla_invariantes exacta
              [(0, 0, 0); (1, 1, 1); (1, 1, 1)]%Q 1)
    as (xmin & ymin & zmin & xmax & ymax & zmax & Hmin & Hmax & H);
    [discriminate | reflexivity |].
  injection Hmin as <- <- <-. injection Hmax as <- <- <-.
  cbn [desborda exacta orb] in H.
  destruct H as (g & Hg & Hsuma & _ & _ & _ & Htotal).
  exists g. split; [exact Hg|]. split; [exact Hsuma|].
  rewrite Htotal. reflexivity.
Defined.

(** C3 (refuted as stated).  No grid that the constructor returns has lost
    a point, in any arithmetic: there is no cloud with a point on the global
    maximum of an axis whose bucket counts sum to less than the number of
    points. *)
Lemma rejilla_no_descarta_puntos :
  ¬ ∃ (ar : Aritmetica) (pts : list Punto) (tam : Q)
      (g : RejillaOcupacion.t) (p : Punto),
      pts ≠ [] ∧ (0 < tam)%Q ∧
      RejillaOcupacion.__init__ pts tam = Devuelve g ∧
      p ∈ pts ∧
      ((px p == RejillaOcupacion.x_maximo g)%Q ∨
       (py p == RejillaOcupacion.y_maximo g)%Q ∨
       (pz p == RejillaOcupacion.z_maximo g)%Q) ∧
      suma_Z (RejillaOcupacion.valores (RejillaOcupacion.rejilla g))
      < Z.of_nat (length pts).
Proof.
  intros (ar & pts & tam & g & p & _ & _ & Hg & _ & _ & Hsuma).
  rewrite (init_suma _ _ _ Hg) in Hsuma. lia.
Qed.

(** C3 (amended).  In a constructed grid a point lying on the global
    maximum of an axis, as every other point of the cloud, is counted: the
    bucket of its cell is stored with a count of at least one, and the
    bucket counts sum to the number of points; the cloud has a point on the
    maximum of its first axis. *)
Theorem rejilla_cuenta_el_maximo {ar : Aritmetica} (pts : list Punto)
    (tam : Q) (g : RejillaOcupacion.t) :
  (0 < tam)%Q → RejillaOcupacion.__init__ pts tam = Devuelve g →
  let clave_de := RejillaOcupacion.clave (RejillaOcupacion.x_minimo g)
                    (RejillaOcupacion.y_minimo g)
                    (RejillaOcupacion.z_minimo g) tam in
  (∃ p, p ∈ pts ∧ (px p == RejillaOcupacion.x_maximo g)%Q) ∧
  (∀ p, p ∈ pts →
        ∃ v, RejillaOcupacion.rejilla g !! clave_de p = Some v ∧ 1 <= v) ∧
  suma_Z (RejillaOcupacion.valores (RejillaOcupacion.rejilla g))
  = Z.of_nat (length pts).
Proof.
  intros Htam Hg.
  pose proof (init_suma _ _ _ Hg) as Hsuma.
  pose proof (init_cuentas_positivas _ _ _ Hg) as Hpos.
  apply init_devuelve in Hg
    as (xmin & ymin & zmin & xmax & ymax & zmax & _ & Hmax & ->).
  cbn [RejillaOcupacion.x_minimo RejillaOcupacion.y_minimo
       RejillaOcupacion.z_minimo RejillaOcupacion.x_maximo
       RejillaOcupacion.rejilla] in *.
  split; [exact (np_max_axis0_alcanzado pts _ Hmax)|].
  split; [|exact Hsuma]. intros p Hp.
  destruct (poblar_clave_presente xmin ymin zmin tam pts ∅ p Hp) as [v Hv].
  exists v. split; [exact Hv|]. exact (Hpos _ _ Hv).
Qed.

Lemma rejilla_cuenta_el_maximo_witness :
  ∃ g, RejillaOcupacion.__init__ [(0, 0, 0); (1, 1, 1)]%Q 1 = Devuelve g ∧
       ∃ v, RejillaOcupacion.rejilla g !! (1, 1, 1) = Some v ∧ 1 <= v.
Proof.
  eexists. split; [reflexivity|].
  refine (proj1 (proj2
    (@rejilla_cuenta_el_maximo exacta [(0, 0, 0); (1, 1, 1)]%Q 1 _ _ eq_refl))
    (1, 1, 1)%Q _).
  - reflexivity.
  - apply list_elem_of_further, list_elem_of_here.
Defined.

(** ** The logarithm of the depth bound *)

(** Powers of two with a natural exponent are integers. *)
Lemma dos_elevado (k : Z) : 0 <= k → (2 ^ k == inject_Z (2 ^ k))%Q.
Proof. intros Hk. symmetry. exact (Zpower_Qpower 2 k Hk). Qed.

(** [ceil_log2 q] is the integer [k] with [2^(k-1) < q <= 2^k]. *)
Lemma ceil_log2_spec (q : Q) :
  (0 < q)%Q → (2 ^ (ceil_log2 q - 1) < q ∧ q <= 2 ^ ceil_log2 q)%Q.
Proof.
  intros Hq. unfold ceil_log2.
  destruct (Qle_bool 1 q) eqn:H1.
  - apply Qle_bool_iff in H1.
    pose proof (Qle_ceiling q) as Hc. pose proof (Qceiling_lt q) as Hc'.
    assert (1 <= Qceiling q) as Ha.
    { rewrite Zle_Qle. change (inject_Z 1) with 1%Q. lra. }
    destruct (Z.eq_dec (Qceiling q) 1) as [E | E].
    + rewrite E in *. change (Z.log2_up 1) with 0. simpl.
      change (inject_Z 1) with 1%Q in Hc. split; [|exact Hc].
      change (/ 2)%Q with (1 # 2)%Q. lra.
    + destruct (Z.log2_up_spec (Qceiling q)) as [Hlo Hhi]; [lia|].
      assert (0 < Z.log2_up (Qceiling q)) as Hk by (apply Z.log2_up_pos; lia).
      rewrite !dos_elevado by lia. split.
      * eapply Qle_lt_trans; [|exact Hc'].
        rewrite <- Zle_Qle.
        replace (Z.log2_up (Qceiling q) - 1)
          with (Z.pred (Z.log2_up (Qceiling q))) by lia.
        lia.
      * eapply Qle_trans; [exact Hc|]. by rewrite <- Zle_Qle.
  - assert (q < 1)%Q as Hq1.
    { apply Qnot_le_lt. intros H%Qle_bool_iff. congruence. }
    pose proof (Qinv_lt_0_compat q Hq) as Hi.
    assert (1 < / q)%Q as Hi1.
    { apply Qlt_shift_inv_l; [exact Hq | lra]. }
    pose proof (Qfloor_le (/ q)) as Hf. pose proof (Qlt_floor (/ q)) as Hf'.
    assert (1 <= Qfloor (/ q)) as Hb.
    { apply Z.lt_succ_r. rewrite Zlt_Qlt.
      replace (Z.succ (Qfloor (/ q))) with (Qfloor (/ q) + 1) by lia.
      change (inject_Z 1) with 1%Q. lra. }
    destruct (Z.log2_spec (Qfloor (/ q))) as [Hlo Hhi]; [lia|].
    pose proof (Z.log2_nonneg (Qfloor (/ q))) as Hj.
    set (j := Z.log2 (Qfloor (/ q))) in *.
    replace (- j - 1) with (- (j + 1)) by lia.
    rewrite !Qpower_opp, !dos_elevado by lia.
    assert (0 < inject_Z (2 ^ j))%Q as Hp.
    { change 0%Q with (inject_Z 0). rewrite <- Zlt_Qlt. lia. }
    assert (0 < inject_Z (2 ^ (j + 1)))%Q as Hp'.
    { change 0%Q with (inject_Z 0). rewrite <- Zlt_Qlt. lia. }
    rewrite Zle_Qle in Hlo.
    replace (Z.succ j) with (j + 1) in Hhi by lia.
    assert (inject_Z (Qfloor (/ q) + 1) <= inject_Z (2 ^ (j + 1)))%Q as Hhi'
      by (rewrite <- Zle_Qle; lia).
    split.
    + apply Qlt_shift_inv_r; [exact Hp'|].
      apply (Qmult_lt_l _ _ q) in Hf'; [|exact Hq].
      rewrite Qmult_inv_r in Hf' by lra.
      apply (Qmult_le_l _ _ q) in Hhi'; [|exact Hq]. lra.
    + apply Qle_shift_inv_l; [exact Hp|].
      assert (inject_Z (2 ^ j) <= / q)%Q as H by lra.
      apply (Qmult_le_l _ _ q) in H; [|exact Hq].
      rewrite Qmult_inv_r in H by lra. lra.
Qed.

(** ** The octree: termination and depth *)

Section Terminacion.
Import NodoOctree.
Context {ar : Aritmetica}.

Lemma debe_subdividir_pequeno pts lim tmin maxp :
  (extension_maxima lim <= tmin)%Q →
  debe_subdividir pts lim tmin maxp = false.
Proof.
  intros Hle. unfold debe_subdividir. apply andb_false_iff. right.
  destruct (Qlt_bool tmin (tam_max lim)) eqn:Hlt; [|done].
  apply Qlt_bool_iff in Hlt. rewrite tam_max_extension in Hlt. lra.
Qed.

Lemma debe_subdividir_pocos pts lim tmin maxp :
  Z.of_nat (length pts) <= maxp → debe_subdividir pts lim tmin maxp = false.
Proof.
  intros Hle. unfold debe_subdividir. apply andb_false_iff. left.
  apply Z.ltb_ge, Hle.
Qed.

(** A node does not return as long as one of its children does not. *)
Lemma init_hijo_sin_fin (fuel : nat) pts lim tmin maxp (sub : Limites) :
  debe_subdividir pts lim tmin maxp = true →
  sub ∈ octantes lim →
  __init__ fuel (List.filter (mascara sub) pts) sub tmin maxp = None →
  __init__ (S fuel) pts lim tmin maxp = None.
Proof.
  intros Hd Hsub Hnone.
  destruct (__init__ (S fuel) pts lim tmin maxp) as [n|] eqn:Hn; [|done].
  destruct (init_interno _ _ _ _ _ _ Hd Hn) as (f & hs & [= <-] & _ & Hhs).
  apply list_elem_of_lookup in Hsub as [i Hi].
  destruct (Forall2_lookup_l _ _ _ _ _ Hhs Hi) as (h & _ & Hh).
  simpl in Hh. congruence.
Qed.

(** For a positive [tmin], some power of two times [tmin] covers an extent
    [E] above it: the one given by [ceil_log2]. *)
Lemma cota_ceil_log2 (E tmin : Q) :
  (0 < tmin)%Q → (tmin < E)%Q →
  0 <= ceil_log2 (E / tmin) ∧
  (E <= tmin * inject_Z (2 ^ Z.of_nat (Z.to_nat (ceil_log2 (E / tmin)))))%Q.
Proof.
  intros Htmin Hlim.
  assert (1 < E / tmin)%Q as Hq.
  { apply Qlt_shift_div_l; [exact Htmin | lra]. }
  destruct (ceil_log2_spec (E / tmin)) as [_ Hhi]; [lra|].
  assert (0 <= ceil_log2 (E / tmin)) as Hk.
  { unfold ceil_log2. destruct (Qle_bool 1 _) eqn:H1.
    - apply Z.log2_up_nonneg.
    - apply Qle_bool_false_iff in H1. lra. }
  split; [exact Hk|]. rewrite Z2Nat.id by exact Hk.
  rewrite dos_elevado in Hhi by exact Hk.
  apply (Qmult_le_l _ _ tmin) in Hhi; [|exact Htmin].
  rewrite Qmult_div_r in Hhi by lra. exact Hhi.
Qed.

Lemma profundidad_hijos (pts : list Punto) lim tmin maxp (hs : list t)
    (d : nat) :
  Forall (λ h, (profundidad h ≤ d)%nat) hs →
  (profundidad (Nodo pts lim tmin maxp hs) ≤ S d)%nat.
Proof. simpl. induction 1 as [|h hs Hh _ IH]; simpl; lia. Qed.

(** *** When every subdivision halves the largest extent *)

Hypothesis Hmitades : mitades_exactas.

(** If the extent of a box is at most [tmin * 2^(d+1)], the extent of its
    octants is at most [tmin * 2^d]. *)
Lemma extension_octante_cota (lim sub : Limites) (tmin : Q) (d : nat) :
  sub ∈ octantes lim →
  (extension_maxima lim <= tmin * inject_Z (2 ^ Z.of_nat (S d)))%Q →
  (extension_maxima sub <= tmin * inject_Z (2 ^ Z.of_nat d))%Q.
Proof.
  intros Hsub Hlim. pose proof (Hmitades lim sub Hsub) as Hmitad.
  rewrite Nat2Z.inj_succ, Z.pow_succ_r, inject_Z_mult in Hlim by lia.
  change (inject_Z 2) with 2%Q in Hlim.
  revert Hlim Hmitad.
  generalize (inject_Z (2 ^ Z.of_nat d)), (extension_maxima lim),
    (extension_maxima sub).
  intros a b c Hb Hc. unfold Qdiv in Hc. change (/ 2)%Q with (1 # 2)%Q in Hc.
  lra.
Qed.

(** Fuel [d] is enough as soon as the extent is at most [tmin * 2^d]. *)
Lemma init_termina (fuel : nat) pts lim tmin maxp :
  (extension_maxima lim <= tmin * inject_Z (2 ^ Z.of_nat fuel))%Q →
  is_Some (__init__ fuel pts lim tmin maxp).
Proof.
  revert pts lim. induction fuel as [|fuel IH]; intros pts lim Hlim.
  - rewrite init_hoja; [done|]. apply debe_subdividir_pequeno.
    change (inject_Z (2 ^ Z.of_nat 0)) with 1%Q in Hlim. lra.
  - destruct (debe_subdividir pts lim tmin maxp) eqn:Hd;
      [|by rewrite init_hoja].
    simpl. rewrite Hd.
    destruct (mapM_is_Some_2
                (λ sub, __init__ fuel (List.filter (mascara sub) pts)
                          sub tmin maxp) (octantes lim)) as [hs ->]; [|done].
    apply Forall_forall. intros sub Hsub. simpl.
    apply IH. by apply (extension_octante_cota lim).
Qed.

(** A constructed tree is no deeper than any [d] with
    [extent <= tmin * 2^d]. *)
Lemma init_profundidad (d fuel : nat) pts lim tmin maxp n :
  __init__ fuel pts lim tmin maxp = Some n →
  (extension_maxima lim <= tmin * inject_Z (2 ^ Z.of_nat d))%Q →
  (profundidad n ≤ d)%nat.
Proof.
  revert fuel pts lim n.
  induction d as [|d IH]; intros fuel pts lim n Hn Hlim.
  - rewrite init_hoja in Hn.
    + by injection Hn as <-.
    + apply debe_subdividir_pequeno.
      change (inject_Z (2 ^ Z.of_nat 0)) with 1%Q in Hlim. lra.
  - destruct (debe_subdividir pts lim tmin maxp) eqn:Hd.
    + destruct (init_interno _ _ _ _ _ _ Hd Hn) as (f & hs & -> & -> & Hhs).
      apply profundidad_hijos, Forall_forall. intros h Hh.
      destruct (Forall2_elem_r _ _ _ _ Hhs Hh) as (sub & Hsub & Hinit).
      eapply IH; [exact Hinit|]. by apply (extension_octante_cota lim).
    + rewrite init_hoja in Hn by done. injection Hn as <-. simpl. lia.
Qed.

End Terminacion.




(** C10 (refuted as stated).  With [maximo_puntos = -1] the empty point set
    exceeds the threshold, and the root subdivides: the tree has nine nodes. *)
Lemma octree_vacio_maximo_negativo :
  ∃ raiz,
    (∀ fuel, (1 ≤ fuel)%nat →
             NodoOctree.__init__ fuel [] ((0, 0, 0), (1, 1, 1))%Q (1 # 2) (-1)
             = Some raiz) ∧
    length (NodoOctree.hijos raiz) = 8%nat ∧
    NodoOctree.total_nodos (NodoOctree.recopilar_estadisticas raiz) = 9.
Proof.
  destruct (NodoOctree.__init__ 1 [] ((0, 0, 0), (1, 1, 1))%Q (1 # 2) (-1))
    as [raiz|] eqn:Hraiz; [|vm_compute in Hraiz; discriminate].
  exists raiz. split.
  - intros fuel Hfuel. exact (init_mas_fuel _ _ _ _ _ _ _ Hraiz Hfuel).
  - vm_compute in Hraiz. injection Hraiz as <-. by vm_compute.
Qed.

(** C10 (amended).  With [maximo_puntos >= 0], constructing an octree on the
    empty point set, with any bounds and any [tam_minimo], returns a single
    leaf, whose statistics are one node, one leaf, no internal node, no
    occupied leaf, one empty leaf, and an average of 0. *)
Theorem octree_vacio (fuel : nat) (lim : Limites) (tmin : Q) (maxp : Z) :
  0 <= maxp →
  ∃ raiz,
    NodoOctree.__init__ fuel [] lim tmin maxp = Some raiz ∧
    NodoOctree.hijos raiz = [] ∧
    todos_los_nodos raiz = [raiz] ∧
    NodoOctree.recopilar_estadisticas raiz
    = {| NodoOctree.total_nodos := 1; NodoOctree.e_hojas := 1;
         NodoOctree.e_internos := 0; NodoOctree.e_hojas_ocupadas := 0;
         NodoOctree.e_hojas_vacias := 1;
         NodoOctree.promedio_puntos := 0%Q |}.
Proof.
  intros Hmaxp. eexists. split.
  - by apply init_hoja, debe_subdividir_pocos.
  - done.
Qed.

Lemma octree_vacio_witness :
  ∃ raiz,
    NodoOctree.__init__ 0 [] ((0, 0, 0), (2, 2, 2))%Q (-1) 0 = Some raiz ∧
    NodoOctree.hijos raiz = [].
Proof.
  destruct (octree_vacio 0 ((0, 0, 0), (2, 2, 2))%Q (-1) 0)
    as (raiz & Hraiz & Hhijos & _); [lia|].
  by exists raiz.
Defined.

(** C4 (refuted as stated).  Neither constructor validates its parameters:
    a negative cell size gives a grid, a zero cell size and an empty cloud
    fail with [ValueError], and the octree is built with [maximo_puntos = 0]
    and with [tam_minimo = -1]. *)
Lemma construccion_sin_validacion :
  (∃ g, RejillaOcupacion.__init__ [(0, 0, 0)]%Q (-1) = Devuelve g) ∧
  RejillaOcupacion.__init__ [(0, 0, 0)]%Q 0 = Lanza "ValueError" ∧
  RejillaOcupacion.__init__ [] 1 = Lanza "ValueError" ∧
  (∃ n, ∀ fuel, NodoOctree.__init__ fuel [(0, 0, 0)]%Q
                  ((0, 0, 0), (1, 1, 1))%Q 1 0 = Some n) ∧
  (∃ n, ∀ fuel, NodoOctree.__init__ fuel [(0, 0, 0)]%Q
                  ((0, 0, 0), (1, 1, 1))%Q (-1) 1 = Some n).
Proof.
  split; [by eexists|]. split; [done|]. split; [done|].
  split; eexists; intros fuel; by apply init_hoja.
Qed.

(** C4 (amended).  No parameter is validated and [InvalidParameterError] is
    never raised, in any arithmetic.  The grid constructor fails with
    [ValueError] on an empty point set and with [OverflowError] or
    [ValueError] on a zero cell size; on a non-empty point set and a cell
    size that is not zero, negative ones included, it fails with
    [OverflowError] when one of the three quotients overflows and returns a
    grid otherwise.  The octree constructor returns a leaf whenever the
    number of points is at most [maximo_puntos] or the largest extent of
    the bounds is at most [tam_minimo], whatever the values of
    [tam_minimo] and [maximo_puntos]. *)
Theorem construccion_no_valida_parametros {ar : Aritmetica} :
  (∀ tam, RejillaOcupacion.__init__ [] tam = Lanza "ValueError") ∧
  (∀ p ps tam, (tam == 0)%Q →
     ∃ e, RejillaOcupacion.__init__ (p :: ps) tam = Lanza e ∧
          (e = "OverflowError"%string ∨ e = "ValueError"%string)) ∧
  (∀ p ps tam, ¬ (tam == 0)%Q →
     ∃ xmin ymin zmin xmax ymax zmax,
       np_min_axis0 (p :: ps) = Devuelve (xmin, ymin, zmin) ∧
       np_max_axis0 (p :: ps) = Devuelve (xmax, ymax, zmax) ∧
       if desborda (resta xmax xmin) tam || desborda (resta ymax ymin) tam
          || desborda (resta zmax zmin) tam
       then RejillaOcupacion.__init__ (p :: ps) tam = Lanza "OverflowError"
       else ∃ g, RejillaOcupacion.__init__ (p :: ps) tam = Devuelve g) ∧
  (∀ pts tam,
     RejillaOcupacion.__init__ pts tam ≠ Lanza "InvalidParameterError") ∧
  (∀ fuel pts lim tmin maxp, Z.of_nat (length pts) <= maxp →
     NodoOctree.__init__ fuel pts lim tmin maxp
     = Some (NodoOctree.Nodo pts lim tmin maxp [])) ∧
  (∀ fuel pts lim tmin maxp, (extension_maxima lim <= tmin)%Q →
     NodoOctree.__init__ fuel pts lim tmin maxp
     = Some (NodoOctree.Nodo pts lim tmin maxp [])).
Proof.
  assert (∀ p ps tam, (tam == 0)%Q →
     ∃ e, RejillaOcupacion.__init__ (p :: ps) tam = Lanza e ∧
          (e = "OverflowError"%string ∨ e = "ValueError"%string)) as Hcero.
  { intros p ps tam Htam.
    unfold RejillaOcupacion.__init__, np_min_axis0, np_max_axis0.
    destruct (int_floor_div_cero
                (resta (np_max (px p) (px <$> ps))
                   (np_min (px p) (px <$> ps))) tam
                Htam) as (e & -> & He).
    by exists e. }
  split; [done|]. split; [exact Hcero|]. split; [|split; [|split]].
  - intros p ps tam Htam.
    destruct (init_no_cero p ps tam Htam)
      as (xmin & ymin & zmin & xmax & ymax & zmax & Hmin & Hmax & Hg).
    exists xmin, ymin, zmin, xmax, ymax, zmax.
    split; [exact Hmin|]. split; [exact Hmax|].
    destruct (_ || _); eauto.
  - intros [|p ps] tam; [done|].
    destruct (Qeq_dec tam 0) as [Htam | Htam].
    + destruct (Hcero p ps tam Htam) as (e & -> & [-> | ->]); done.
    + destruct (init_no_cero p ps tam Htam)
        as (? & ? & ? & ? & ? & ? & _ & _ & ->).
      by destruct (_ || _).
  - intros fuel pts lim tmin maxp Hle.
    by apply init_hoja, debe_subdividir_pocos.
  - intros fuel pts lim tmin maxp Hle.
    by apply init_hoja, debe_subdividir_pequeno.
Qed.

(** ** The octree: the nodes of a constructed tree *)

Section Nodos.
Import NodoOctree.
Context {ar : Aritmetica}.

Lemma debe_subdividir_iff pts lim tmin maxp :
  debe_subdividir pts lim tmin maxp = true ↔
  maxp < Z.of_nat (length pts) ∧ (tmin < tam_max lim)%Q.
Proof.
  unfold debe_subdividir.
  by rewrite andb_true_iff, Z.ltb_lt, Qlt_bool_iff.
Qed.

(** [tam_max] is the largest of the three extents of the bounds. *)
Lemma tam_max_es_maximo (x0 y0 z0 x1 y1 z1 : Q) :
  let m := tam_max ((x0, y0, z0), (x1, y1, z1)) in
  (resta x1 x0 <= m ∧ resta y1 y0 <= m ∧ resta z1 z0 <= m ∧
   (m == resta x1 x0 ∨ m == resta y1 y0 ∨ m == resta z1 z0))%Q.
Proof. apply np_max3_cotas. Qed.

(** The test of [_subdividir_o_hoja] succeeds when there are more than
    [maxp] points and the extent on some axis exceeds [tmin]. *)
Lemma debe_subdividir_ejes pts (x0 y0 z0 x1 y1 z1 : Q) tmin maxp :
  debe_subdividir pts ((x0, y0, z0), (x1, y1, z1)) tmin maxp = true ↔
  maxp < Z.of_nat (length pts) ∧
  (tmin < resta x1 x0 ∨ tmin < resta y1 y0 ∨ tmin < resta z1 z0)%Q.
Proof.
  rewrite debe_subdividir_iff.
  pose proof (tam_max_es_maximo x0 y0 z0 x1 y1 z1) as Hm. cbv zeta in Hm.
  revert Hm. generalize (tam_max ((x0, y0, z0), (x1, y1, z1))).
  intros m (Hx & Hy & Hz & Hm). split; intros [Hn Ht]; (split; [exact Hn|]).
  - destruct Hm as [Hm | [Hm | Hm]]; rewrite Hm in Ht; auto.
  - destruct Ht as [Ht | [Ht | Ht]]; lra.
Qed.

(** The children of a constructed node that subdivides carry the bounds of
    the octants, the rows of the mask and the thresholds of their parent. *)
Lemma init_hijos_campos fuel pts lim tmin maxp n :
  __init__ fuel pts lim tmin maxp = Some n →
  debe_subdividir pts lim tmin maxp = true →
  Forall2 (λ sub h, limites h = sub ∧
                    puntos h = List.filter (mascara sub) pts ∧
                    tam_minimo h = tmin ∧ maximo_puntos h = maxp)
          (octantes lim) (hijos n).
Proof.
  intros Hn Hd. pose proof (init_hijos _ _ _ _ _ _ Hn) as Hhs.
  rewrite Hd in Hhs. destruct Hhs as (f & _ & Hhs).
  eapply Forall2_impl; [exact Hhs|]. intros sub h Hh. simpl in Hh.
  destruct (init_campos _ _ _ _ _ _ Hh) as (? & ? & ? & ?). done.
Qed.

Lemma Forall2_limites (subs : list Limites) (hs : list t)
    (P : Limites → t → Prop) :
  Forall2 (λ sub h, limites h = sub ∧ P sub h) subs hs →
  limites <$> hs = subs.
Proof.
  induction 1 as [|sub h subs hs [Hl _] _ IH]; [done|].
  rewrite fmap_cons. by f_equal.
Qed.

End Nodos.

(** C5.  Every node of a constructed octree has eight children if and only
    if it has more than [maximo_puntos] points and the extent of its bounds
    on some axis, that is the largest of the three, exceeds [tam_minimo],
    and has no children otherwise; when it subdivides, the bounds of its
    children are the eight octants cut at the computed midpoint of each
    axis, in the order x outermost, then y, then z, the low half before the
    high half. *)
Theorem octree_subdivision {ar : Aritmetica} (fuel : nat)
    (pts : list Punto) (lim : Limites) (tmin : Q) (maxp : Z)
    (raiz n : NodoOctree.t) :
  NodoOctree.__init__ fuel pts lim tmin maxp = Some raiz →
  n ∈ todos_los_nodos raiz →
  ∃ x0 y0 z0 x1 y1 z1,
    NodoOctree.limites n = ((x0, y0, z0), (x1, y1, z1)) ∧
    let subdivide :=
      NodoOctree.maximo_puntos n < Z.of_nat (length (NodoOctree.puntos n)) ∧
      (NodoOctree.tam_minimo n < resta x1 x0 ∨
       NodoOctree.tam_minimo n < resta y1 y0 ∨
       NodoOctree.tam_minimo n < resta z1 z0)%Q in
    NodoOctree.tam_minimo n = tmin ∧ NodoOctree.maximo_puntos n = maxp ∧
    (length (NodoOctree.hijos n) = 8%nat ↔ subdivide) ∧
    (¬ subdivide → NodoOctree.hijos n = []) ∧
    (subdivide →
     let mx := divide (suma x0 x1) 2 in
     let my := divide (suma y0 y1) 2 in
     let mz := divide (suma z0 z1) 2 in
     NodoOctree.limites <$> NodoOctree.hijos n =
     [ ((x0, y0, z0), (mx, my, mz)); ((x0, y0, mz), (mx, my, z1));
       ((x0, my, z0), (mx, y1, mz)); ((x0, my, mz), (mx, y1, z1));
       ((mx, y0, z0), (x1, my, mz)); ((mx, y0, mz), (x1, my, z1));
       ((mx, my, z0), (x1, y1, mz)); ((mx, my, mz), (x1, y1, z1)) ]).
Proof.
  intros Hraiz Hn.
  destruct (init_subnodos_construidos _ _ _ _ _ _ _ Hraiz Hn)
    as (f & ps & l & Hinit).
  destruct (init_campos _ _ _ _ _ _ Hinit) as (Hps & Hl & Htmin & Hmaxp).
  destruct l as [[[x0 y0] z0] [[x1 y1] z1]].
  exists x0, y0, z0, x1, y1, z1. split; [exact Hl|].
  rewrite Hps, Htmin, Hmaxp. cbv zeta.
  rewrite <- debe_subdividir_ejes.
  split; [done|]. split; [done|].
  pose proof (init_hijos _ _ _ _ _ _ Hinit) as Hhs.
  destruct (NodoOctree.debe_subdividir ps _ tmin maxp) eqn:Hd.
  - pose proof (init_hijos_campos _ _ _ _ _ _ Hinit Hd) as Hcampos.
    split; [|split; [done|]].
    + split; [done|]. intros _.
      rewrite <- (Forall2_length _ _ _ Hcampos). apply length_octantes.
    + intros _. rewrite (Forall2_limites _ _ _ Hcampos).
      apply octantes_lista.
  - rewrite Hhs. split; [|split; [done|intros [=]]].
    split; [intros [=] | intros [=]].
Qed.

Lemma octree_subdivision_witness :
  ∃ raiz,
    NodoOctree.__init__ 1 [(0, 0, 0); (0, 4, 4); (1, 5, 5)]%Q
      ((0, 0, 0), (1, 5, 5))%Q 2 1 = Some raiz ∧
    length (NodoOctree.hijos raiz) = 8%nat.
Proof.
  eexists. split; [reflexivity|].
  destruct (@octree_subdivision exacta 1 [(0, 0, 0); (0, 4, 4); (1, 5, 5)]%Q
              ((0, 0, 0), (1, 5, 5))%Q 2 1 _ _ eq_refl
              (todos_los_nodos_raiz _))
    as (x0 & y0 & z0 & x1 & y1 & z1 & Hlim & _ & _ & Hocho & _).
  injection Hlim as <- <- <- <- <- <-.
  apply Hocho. split; [simpl; lia | right; left; reflexivity].
Defined.

(** ** The octree: assignment of the points to the octants *)

Section Asignacion.
Import NodoOctree.
Context {ar : Aritmetica}.

(** The bounds computed by the callers lie at or below every point. *)
Lemma limites_de_sobre_minimo (pts : list Punto) (lim : Limites) :
  limites_de pts = Devuelve lim → Forall (sobre_minimo lim) pts.
Proof.
  destruct pts as [|p0 ps]; [discriminate|]. intros [= <-].
  apply Forall_forall. intros p Hp.
  exact (np_min_axis0_cota (p0 :: ps) _ p eq_refl Hp).
Qed.

Lemma elem_of_filter_mascara (sub : Limites) (pts : list Punto) (p : Punto) :
  p ∈ List.filter (mascara sub) pts ↔ p ∈ pts ∧ dentro sub p.
Proof.
  by rewrite !list_elem_of_In, filter_In, mascara_dentro.
Qed.

Lemma dentro_sobre_minimo (sub : Limites) (p : Punto) :
  dentro sub p → sobre_minimo sub p.
Proof. unfold dentro, sobre_minimo. tauto. Qed.

Lemma dentro_iff (lim : Limites) (p : Punto) :
  dentro lim p ↔ sobre_minimo lim p ∧ bajo_maximo lim p.
Proof. unfold dentro, sobre_minimo, bajo_maximo. tauto. Qed.

Lemma en_maximo_fuera (lim : Limites) (p : Punto) :
  en_maximo lim p → ¬ dentro lim p.
Proof.
  intros Hmax ((_ & Hx) & (_ & Hy) & (_ & Hz)).
  destruct Hmax as [H | [H | H]]; lra.
Qed.

(** In a tree constructed from points at or above the min corner of the
    bounds, the points of every node are at or above the min corner of the
    bounds of that node. *)
Lemma init_puntos_sobre_minimo fuel pts lim tmin maxp raiz n :
  __init__ fuel pts lim tmin maxp = Some raiz →
  Forall (sobre_minimo lim) pts →
  n ∈ todos_los_nodos raiz →
  Forall (sobre_minimo (limites n)) (puntos n).
Proof.
  intros Hraiz Hpts Hn.
  destruct (init_subnodos _ _ _ _ _ _ _ Hraiz Hn)
    as [-> | (f & ps & sub & Hinit)].
  - by destruct (init_campos _ _ _ _ _ _ Hraiz) as (-> & -> & _).
  - destruct (init_campos _ _ _ _ _ _ Hinit) as (-> & -> & _).
    apply Forall_forall. intros p Hp.
    apply elem_of_filter_mascara in Hp as [_ Hp].
    by apply dentro_sobre_minimo.
Qed.

Lemma indice_octante_lt (lim : Limites) (p : Punto) :
  (indice_octante lim p < 8)%nat.
Proof.
  destruct lim as [[[x0 y0] z0] [[x1 y1] z1]]. unfold indice_octante.
  repeat destruct (Qle_bool _ _); simpl; lia.
Qed.

End Asignacion.

(** C2 (refuted as stated).  A point strictly below the max corner on every
    axis need not be placed in a child: the test also requires it to be at
    or above the min corner.  The root with bounds from (0, 0, 0) to
    (1, 1, 1) subdivides, and its point (-1, 0, 0) is in none of its eight
    children, in exact and in float64 arithmetic alike. *)
Lemma octree_punto_bajo_el_minimo :
  let p := (-1, 0, 0)%Q in
  let pts := [p; (0, 0, 0); (1 # 2, 1 # 2, 1 # 2)]%Q in
  let lim := ((0, 0, 0), (1, 1, 1))%Q in
  (∃ raiz,
     @NodoOctree.__init__ exacta 1 pts lim (1 # 2) 1 = Some raiz ∧
     length (NodoOctree.hijos raiz) = 8%nat ∧
     p ∈ NodoOctree.puntos raiz ∧
     bajo_maximo (NodoOctree.limites raiz) p ∧
     ∀ h, h ∈ NodoOctree.hijos raiz → p ∉ NodoOctree.puntos h) ∧
  (∃ raiz,
     @NodoOctree.__init__ binario64 1 pts lim (1 # 2) 1 = Some raiz ∧
     length (NodoOctree.hijos raiz) = 8%nat ∧
     p ∈ NodoOctree.puntos raiz ∧
     bajo_maximo (NodoOctree.limites raiz) p ∧
     ∀ h, h ∈ NodoOctree.hijos raiz → p ∉ NodoOctree.puntos h).
Proof.
  cbv zeta. split.
  - eexists. split; [by vm_compute|]. split; [reflexivity|].
    split; [apply list_elem_of_here|]. split; [by vm_compute|].
    intros h Hh Hp. cbn [NodoOctree.hijos] in Hh.
    repeat (apply elem_of_cons in Hh as [-> | Hh]);
      [..| by apply elem_of_nil in Hh];
      cbn [NodoOctree.puntos] in Hp;
      repeat (apply elem_of_cons in Hp as [[=] | Hp]);
      by apply elem_of_nil in Hp.
  - eexists. split; [by vm_compute|]. split; [reflexivity|].
    split; [apply list_elem_of_here|]. split; [by vm_compute|].
    intros h Hh Hp. cbn [NodoOctree.hijos] in Hh.
    repeat (apply elem_of_cons in Hh as [-> | Hh]);
      [..| by apply elem_of_nil in Hh];
      cbn [NodoOctree.puntos] in Hp;
      repeat (apply elem_of_cons in Hp as [[=] | Hp]);
      by apply elem_of_nil in Hp.
Qed.

(** C2 (amended).  When a node of a constructed octree subdivides, each
    child receives exactly the points of the node that pass the half-open
    test [low <= coord < high] on every axis of its octant; a point of the
    node that lies in the half-open box of the node, at or above its min
    corner and strictly below its max corner on every axis, is placed in
    exactly one child; and, the computed midpoints lying between the
    corners, every point placed in a child lies in that box, so that a
    point with a coordinate equal to that of the max corner, or below that
    of the min corner, is placed in no child. *)
Theorem octree_asignacion {ar : Aritmetica} (fuel : nat) (pts : list Punto)
    (lim : Limites) (tmin : Q) (maxp : Z) (raiz n : NodoOctree.t) :
  NodoOctree.__init__ fuel pts lim tmin maxp = Some raiz →
  n ∈ todos_los_nodos raiz →
  NodoOctree.hijos n ≠ [] →
  length (NodoOctree.hijos n) = 8%nat ∧
  (∀ h p, h ∈ NodoOctree.hijos n →
     p ∈ NodoOctree.puntos h ↔
     p ∈ NodoOctree.puntos n ∧ dentro (NodoOctree.limites h) p) ∧
  (∀ p, p ∈ NodoOctree.puntos n → dentro (NodoOctree.limites n) p →
     ∃ i h, NodoOctree.hijos n !! i = Some h ∧ p ∈ NodoOctree.puntos h ∧
            ∀ j h', NodoOctree.hijos n !! j = Some h' →
                    p ∈ NodoOctree.puntos h' → j = i) ∧
  (medio_entre_extremos →
   (∀ p h, h ∈ NodoOctree.hijos n → p ∈ NodoOctree.puntos h →
           dentro (NodoOctree.limites n) p) ∧
   (∀ p h, en_maximo (NodoOctree.limites n) p →
           h ∈ NodoOctree.hijos n → p ∉ NodoOctree.puntos h) ∧
   (∀ p h, ¬ sobre_minimo (NodoOctree.limites n) p →
           h ∈ NodoOctree.hijos n → p ∉ NodoOctree.puntos h)).
Proof.
  intros Hraiz Hn Hhijos.
  destruct (init_subnodos_construidos _ _ _ _ _ _ _ Hraiz Hn)
    as (f & ps & l & Hinit).
  destruct (init_campos _ _ _ _ _ _ Hinit) as (Hps & Hl & _ & _).
  rewrite Hps, Hl in *.
  pose proof (init_hijos _ _ _ _ _ _ Hinit) as Hhs.
  destruct (NodoOctree.debe_subdividir ps l tmin maxp) eqn:Hd; [clear Hhs|done].
  pose proof (init_hijos_campos _ _ _ _ _ _ Hinit Hd) as Hcampos.
  assert (medio_entre_extremos →
          ∀ p h, h ∈ NodoOctree.hijos n → p ∈ NodoOctree.puntos h →
                 dentro l p) as Hdentro.
  { intros Hmedio p h Hh Hph.
    destruct (Forall2_elem_r _ _ _ _ Hcampos Hh) as (sub & Hsub & _ & Hph' & _).
    rewrite Hph' in Hph. apply elem_of_filter_mascara in Hph as [_ Hph].
    exact (octante_dentro l sub p Hmedio Hsub Hph). }
  split; [|split; [|split]].
  - rewrite <- (Forall2_length _ _ _ Hcampos). apply length_octantes.
  - intros h p Hh.
    destruct (Forall2_elem_r _ _ _ _ Hcampos Hh) as (sub & _ & -> & -> & _).
    apply elem_of_filter_mascara.
  - intros p Hp Hdentro'.
    destruct (lookup_lt_is_Some_2 (NodoOctree.octantes l) (indice_octante l p))
      as [sub Hsub].
    { rewrite length_octantes. apply indice_octante_lt. }
    destruct (Forall2_lookup_l _ _ _ _ _ Hcampos Hsub)
      as (h & Hh & _ & Hph & _).
    exists (indice_octante l p), h. split; [exact Hh|]. split.
    + rewrite Hph. apply elem_of_filter_mascara. split; [exact Hp|].
      apply mascara_dentro. by apply (mascara_indice l sub p _ Hdentro' Hsub).
    + intros j h' Hh' Hp'.
      destruct (Forall2_lookup_r _ _ _ _ _ Hcampos Hh')
        as (sub' & Hsub' & _ & Hph' & _).
      rewrite Hph' in Hp'. apply elem_of_filter_mascara in Hp' as [_ Hp'].
      apply mascara_dentro in Hp'.
      by apply (mascara_indice l sub' p j Hdentro' Hsub').
  - intros Hmedio. split; [exact (Hdentro Hmedio)|]. split.
    + intros p h Hmax Hh Hph.
      exact (en_maximo_fuera l p Hmax (Hdentro Hmedio p h Hh Hph)).
    + intros p h Hmin Hh Hph. apply Hmin, dentro_sobre_minimo.
      exact (Hdentro Hmedio p h Hh Hph).
Qed.

Lemma octree_asignacion_witness :
  ∃ raiz,
    NodoOctree.__init__ 1 [(0, 0, 0); (1, 1, 1); (1 # 4, 1 # 4, 3 # 4)]%Q
      ((0, 0, 0), (1, 1, 1))%Q (1 # 2) 1 = Some raiz ∧
    length (NodoOctree.hijos raiz) = 8%nat ∧
    (∃ i h, NodoOctree.hijos raiz !! i = Some h ∧
            (1 # 4, 1 # 4, 3 # 4)%Q ∈ NodoOctree.puntos h ∧
            ∀ j h', NodoOctree.hijos raiz !! j = Some h' →
                    (1 # 4, 1 # 4, 3 # 4)%Q ∈ NodoOctree.puntos h' → j = i) ∧
    ∀ h, h ∈ NodoOctree.hijos raiz → (1, 1, 1)%Q ∉ NodoOctree.puntos h.
Proof.
  destruct (NodoOctree.__init__ 1
              [(0, 0, 0); (1, 1, 1); (1 # 4, 1 # 4, 3 # 4)]%Q
              ((0, 0, 0), (1, 1, 1))%Q (1 # 2) 1) as [raiz|] eqn:Hraiz;
    [|vm_compute in Hraiz; discriminate].
  exists raiz. split; [reflexivity|].
  destruct (init_campos _ _ _ _ _ _ Hraiz) as (Hpts & Hlim & _ & _).
  assert (NodoOctree.hijos raiz ≠ []) as Hne.
  { vm_compute in Hraiz. by injection Hraiz as <-. }
  destruct (@octree_asignacion exacta 1
              [(0, 0, 0); (1, 1, 1); (1 # 4, 1 # 4, 3 # 4)]%Q
              ((0, 0, 0), (1, 1, 1))%Q (1 # 2) 1 raiz raiz Hraiz
              (todos_los_nodos_raiz raiz) Hne)
    as (Hocho & _ & Huno & Hfuera).
  split; [exact Hocho|]. split.
  - apply Huno.
    + rewrite Hpts. do 2 apply list_elem_of_further. apply list_elem_of_here.
    + rewrite Hlim. repeat split; by vm_compute.
  - intros h Hh.
    apply (proj1 (proj2 (Hfuera medio_exacto)) (1, 1, 1)%Q h); [|exact Hh].
    rewrite Hlim. left. reflexivity.
Defined.

(** ** The octree: statistics *)

Section Estadisticas.
Import NodoOctree.

Lemma obtener_nodos_hoja_interno pts lim tmin maxp h hs :
  obtener_nodos_hoja (Nodo pts lim tmin maxp (h :: hs))
  = concat (map obtener_nodos_hoja (h :: hs)).
Proof.
  change (obtener_nodos_hoja (Nodo pts lim tmin maxp (h :: hs)))
    with (foldl (λ hojas h, hojas ++ obtener_nodos_hoja h) [] (h :: hs)).
  generalize (h :: hs). intros l.
  rewrite <- (app_nil_l (concat _)). generalize (@nil t).
  induction l as [|x l IH]; intros acc; simpl.
  - by rewrite app_nil_r.
  - by rewrite IH, app_assoc.
Qed.

Lemma foldl_acumular (campo : Estad → Z) (hs : list t) (e0 : Estad) :
  (∀ a b, campo (acumular a b) = campo a + campo b) →
  campo (foldl (λ estad h, acumular estad (recursivo h)) e0 hs)
  = campo e0 + suma_Z ((λ h, campo (recursivo h)) <$> hs).
Proof.
  intros Hadd. revert e0. induction hs as [|h hs IH]; intros e0.
  - unfold suma_Z. simpl. lia.
  - rewrite fmap_cons, suma_Z_cons. cbn [foldl].
    rewrite IH, Hadd. lia.
Qed.

(** A field of [estad] that is additive, equals a measure of a list at
    the leaves, and whose list at an internal node is made of the lists of
    the children, equals that measure at every node. *)
Section Medida.
Context {A : Type} (campo : Estad → Z) (mu : list A → Z) (G : t → list A).
Hypothesis campo_acumular :
  ∀ a b, campo (acumular a b) = campo a + campo b.
Hypothesis mu_nil : mu [] = 0.
Hypothesis mu_app : ∀ l1 l2, mu (l1 ++ l2) = mu l1 + mu l2.
Hypothesis en_hoja : ∀ pts lim tmin maxp,
  campo (recursivo (Nodo pts lim tmin maxp []))
  = mu (G (Nodo pts lim tmin maxp [])).
Hypothesis en_interno : ∀ pts lim tmin maxp h hs,
  mu (G (Nodo pts lim tmin maxp (h :: hs)))
  = campo {| nodos := 1; hojas := 0; internos := 1;
             hojas_ocupadas := 0; hojas_vacias := 0; suma_puntos := 0 |}
    + mu (concat (map G (h :: hs))).

Lemma suma_medida_concat (hs : list t) :
  Forall (λ h, campo (recursivo h) = mu (G h)) hs →
  suma_Z ((λ h, campo (recursivo h)) <$> hs) = mu (concat (map G hs)).
Proof.
  induction 1 as [|h hs Hh _ IH].
  - cbn [map concat]. by rewrite mu_nil.
  - rewrite fmap_cons, suma_Z_cons. cbn [map concat].
    by rewrite mu_app, IH, Hh.
Qed.

Lemma recursivo_medida (n : t) : campo (recursivo n) = mu (G n).
Proof.
  induction n as [pts lim tmin maxp hs IH] using t_ind_anidado.
  destruct hs as [|h hs]; [apply en_hoja|].
  rewrite en_interno, <- (suma_medida_concat _ IH).
  change (recursivo (Nodo pts lim tmin maxp (h :: hs)))
    with (foldl (λ estad h, acumular estad (recursivo h))
            {| nodos := 1; hojas := 0; internos := 1;
               hojas_ocupadas := 0; hojas_vacias := 0; suma_puntos := 0 |}
            (h :: hs)).
  by apply foldl_acumular.
Qed.
End Medida.

Lemma filter_concat_map {A B : Type} (f : B → bool) (g : A → list B)
    (l : list A) :
  List.filter f (concat (map g l))
  = concat (map (λ a, List.filter f (g a)) l).
Proof. by rewrite <- concat_filter_map, map_map. Qed.

Lemma largo_app {A : Type} (l1 l2 : list A) :
  largo (l1 ++ l2) = largo l1 + largo l2.
Proof. unfold largo. rewrite length_app. lia. Qed.

Lemma puntos_en_app (l1 l2 : list t) :
  puntos_en (l1 ++ l2) = puntos_en l1 + puntos_en l2.
Proof.
  unfold puntos_en. rewrite fmap_app. unfold suma_Z.
  induction ((λ n, Z.of_nat (length (puntos n))) <$> l1) as [|x l IH];
    simpl; lia.
Qed.

Lemma recursivo_nodos (n : t) :
  nodos (recursivo n) = largo (todos_los_nodos n).
Proof.
  apply (recursivo_medida nodos largo todos_los_nodos);
    [done | done | apply largo_app | by intros; simpl; destruct (_ <? _) |].
  intros. unfold largo. simpl. lia.
Qed.

Lemma recursivo_hojas (n : t) :
  hojas (recursivo n) = largo (List.filter es_hoja (todos_los_nodos n)).
Proof.
  apply (recursivo_medida hojas largo
           (λ n, List.filter es_hoja (todos_los_nodos n)));
    [done | done | apply largo_app | by intros; simpl; destruct (_ <? _) |].
  intros. cbn [todos_los_nodos List.filter es_hoja hijos].
  by rewrite filter_concat_map.
Qed.

Lemma recursivo_internos (n : t) :
  internos (recursivo n)
  = largo (List.filter (λ n, negb (es_hoja n)) (todos_los_nodos n)).
Proof.
  apply (recursivo_medida internos largo
           (λ n, List.filter (λ n, negb (es_hoja n)) (todos_los_nodos n)));
    [done | done | apply largo_app | by intros; simpl; destruct (_ <? _) |].
  intros. cbn [todos_los_nodos List.filter es_hoja hijos negb].
  rewrite filter_concat_map. unfold largo. simpl. lia.
Qed.

Lemma recursivo_hojas_obtener (n : t) :
  hojas (recursivo n) = largo (obtener_nodos_hoja n).
Proof.
  apply (recursivo_medida hojas largo obtener_nodos_hoja);
    [done | done | apply largo_app | by intros; simpl; destruct (_ <? _) |].
  intros. by rewrite obtener_nodos_hoja_interno.
Qed.

Lemma recursivo_hojas_ocupadas (n : t) :
  hojas_ocupadas (recursivo n) = largo (hojas_ocupadas_de n).
Proof.
  apply (recursivo_medida hojas_ocupadas largo hojas_ocupadas_de);
    [done | done | apply largo_app | |].
  - intros. unfold hojas_ocupadas_de. simpl. by destruct (_ <? _).
  - intros. unfold hojas_ocupadas_de.
    by rewrite obtener_nodos_hoja_interno, filter_concat_map.
Qed.

Lemma recursivo_hojas_vacias (n : t) :
  hojas_vacias (recursivo n)
  = largo (List.filter (λ n, negb (ocupada n)) (obtener_nodos_hoja n)).
Proof.
  apply (recursivo_medida hojas_vacias largo
           (λ n, List.filter (λ n, negb (ocupada n)) (obtener_nodos_hoja n)));
    [done | done | apply largo_app | |].
  - intros. unfold ocupada. simpl. by destruct (_ <? _).
  - intros. by rewrite obtener_nodos_hoja_interno, filter_concat_map.
Qed.

Lemma recursivo_suma_puntos (n : t) :
  suma_puntos (recursivo n) = puntos_en (hojas_ocupadas_de n).
Proof.
  apply (recursivo_medida suma_puntos puntos_en hojas_ocupadas_de);
    [done | done | apply puntos_en_app | |].
  - intros. unfold hojas_ocupadas_de, puntos_en, suma_Z. simpl.
    destruct (_ <? _) eqn:Hcnt; simpl; lia.
  - intros. unfold hojas_ocupadas_de.
    by rewrite obtener_nodos_hoja_interno, filter_concat_map.
Qed.

(** In a constructed tree a node has no children or eight. *)
Lemma init_cero_u_ocho fuel pts lim tmin maxp raiz n :
  __init__ fuel pts lim tmin maxp = Some raiz →
  n ∈ todos_los_nodos raiz →
  hijos n = [] ∨ length (hijos n) = 8%nat.
Proof.
  intros Hraiz Hn.
  destruct (init_subnodos_construidos _ _ _ _ _ _ _ Hraiz Hn)
    as (f & ps & l & Hinit).
  pose proof (init_hijos _ _ _ _ _ _ Hinit) as Hhs.
  destruct (debe_subdividir ps l tmin maxp); [right | by left].
  destruct Hhs as (f' & _ & Hhs).
  rewrite <- (Forall2_length _ _ _ Hhs). apply length_octantes.
Qed.

End Estadisticas.

Section EstadisticasBalance.
Import NodoOctree.

Lemma recursivo_nodos_balance (n : t) :
  nodos (recursivo n) = hojas (recursivo n) + internos (recursivo n).
Proof.
  pose proof (recursivo_medida (λ e, nodos e - hojas e - internos e)
                (λ _ : list unit, 0) (λ _, [])) as H.
  simpl in H. specialize (H ltac:(intros; lia) eq_refl ltac:(done)).
  specialize (H ltac:(by intros; destruct (_ <? _)) ltac:(done) n). lia.
Qed.

Lemma recursivo_hojas_balance (n : t) :
  hojas_ocupadas (recursivo n) + hojas_vacias (recursivo n)
  = hojas (recursivo n).
Proof.
  pose proof (recursivo_medida
                (λ e, hojas e - hojas_ocupadas e - hojas_vacias e)
                (λ _ : list unit, 0) (λ _, [])) as H.
  simpl in H. specialize (H ltac:(intros; lia) eq_refl ltac:(done)).
  specialize (H ltac:(by intros; destruct (_ <? _)) ltac:(done) n). lia.
Qed.

End EstadisticasBalance.



(** ** The leaf selection *)

Section Seleccion.
Context {A : Type}.

Lemma int_Q_no_negativo (q : Q) : (0 <= q)%Q → int_Q q = Qfloor q.
Proof.
  destruct q as [n d]. unfold Qle, int_Q, Qfloor. simpl. intros Hn.
  apply Z.quot_div_nonneg; lia.
Qed.

Lemma floor_muestra (T M i : Z) :
  0 < M → Qfloor (inject_Z i * (inject_Z T / inject_Z M)) = (i * T) / M.
Proof.
  intros HM. rewrite Zdiv_Qdiv. apply Qfloor_comp.
  rewrite inject_Z_mult. field.
  unfold Qeq. simpl. lia.
Qed.

Lemma indice_muestra_div (T M i : Z) :
  0 <= T → 0 < M → 0 <= i → indice_muestra T M i = (i * T) / M.
Proof.
  intros HT HM Hi. unfold indice_muestra.
  rewrite int_Q_no_negativo, floor_muestra; [done | done |].
  apply Qmult_le_0_compat.
  - change 0%Q with (inject_Z 0). by rewrite <- Zle_Qle.
  - apply Qle_shift_div_l.
    + change 0%Q with (inject_Z 0). by rewrite <- Zlt_Qlt.
    + rewrite Qmult_0_l. change 0%Q with (inject_Z 0). by rewrite <- Zle_Qle.
Qed.

Lemma div_muestra_rango (T M i : Z) :
  0 < M → 0 <= i < M → 0 < T → 0 <= (i * T) / M < T.
Proof.
  intros HM Hi HT. split.
  - apply Z.div_pos; nia.
  - apply Z.div_lt_upper_bound; nia.
Qed.

Lemma indice_en_rango (l : list A) (j : Z) :
  0 <= j < Z.of_nat (length l) →
  ∃ x, indice l j = Devuelve x ∧ l !! Z.to_nat j = Some x.
Proof.
  intros Hj. unfold indice.
  destruct (j <? 0) eqn:Hneg; [apply Z.ltb_lt in Hneg; lia|].
  destruct (lookup_lt_is_Some_2 l (Z.to_nat j)) as [x Hx]; [lia|].
  exists x. by rewrite Hneg, Hx.
Qed.

(** A comprehension over in-range indices returns the indexed elements. *)
Lemma comprension_indices (l : list A) (k : Z → Z) (R : Z → Prop)
    (ixs : list Z) :
  (∀ i, R i → 0 <= k i < Z.of_nat (length l)) →
  Forall R ixs →
  ∃ sel, comprension (λ i, indice l (k i)) ixs = Devuelve sel ∧
         Forall2 (λ i x, R i ∧ l !! Z.to_nat (k i) = Some x) ixs sel.
Proof.
  intros Hk. induction 1 as [|i ixs Hi _ (sel & Hsel & Hall)]; simpl.
  - by exists [].
  - destruct (indice_en_rango l (k i) (Hk i Hi)) as (x & -> & Hx).
    rewrite Hsel. exists (x :: sel). split; [done|]. by constructor.
Qed.

Lemma range_lookup (n : Z) (a : nat) :
  (a < Z.to_nat n)%nat → range n !! a = Some (Z.of_nat a).
Proof.
  intros Ha. unfold range.
  by rewrite list_lookup_fmap, lookup_seq_lt.
Qed.

Lemma length_range (n : Z) : length (range n) = Z.to_nat n.
Proof. unfold range. by rewrite length_fmap, length_seq. Qed.

Lemma range_Forall (n : Z) : Forall (λ i, 0 <= i < n) (range n).
Proof.
  apply Forall_forall. intros i Hi. unfold range in Hi.
  apply list_elem_of_fmap in Hi as (a & -> & Ha).
  apply elem_of_seq in Ha. lia.
Qed.

End Seleccion.

Section SeleccionRedondeada.
Context {ar : Aritmetica}.
Hypothesis Hredondeo : redondeo_al_mas_cercano.

Lemma error_de_dos_redondeos (P d1 d2 : Q) :
  (0 <= P)%Q → (P <= inject_Z (2 ^ 50))%Q →
  (- unidad_de_redondeo <= d1)%Q → (d1 <= unidad_de_redondeo)%Q →
  (- unidad_de_redondeo <= d2)%Q → (d2 <= unidad_de_redondeo)%Q →
  (0 <= P * (1 + d1) * (1 + d2) ∧
   P - (1 # 2) <= P * (1 + d1) * (1 + d2) ∧
   P * (1 + d1) * (1 + d2) <= P + (1 # 2))%Q.
Proof.
  unfold unidad_de_redondeo. change (inject_Z (2 ^ 50)) with 1125899906842624%Q.
  intros HP HP' Ha Ha' Hb Hb'.
  set (u := (1 # 9007199254740992)%Q) in *.
  assert (0 <= 1 + d1)%Q as H1 by (unfold u in *; lra).
  assert (0 <= 1 + d2)%Q as H2 by (unfold u in *; lra).
  set (t := (d1 + d2 + d1 * d2)%Q).
  assert (P * (1 + d1) * (1 + d2) == P + P * t)%Q as -> by (unfold t; ring).
  assert (- (3 # 9007199254740992) <= t ∧ t <= 3 # 9007199254740992)%Q
    as [Ht Ht'].
  { unfold t, u in *. split; nra. }
  assert (0 <= 1 + t)%Q as Hpos.
  { unfold t. assert (1 + (d1 + d2 + d1 * d2) == (1 + d1) * (1 + d2))%Q as ->
      by ring. by apply Qmult_le_0_compat. }
  clearbody t. clear H1 H2 Ha Ha' Hb Hb'. split; [nra|]. split; nra.
Qed.

(** The index [k = int(i * paso)] is the quotient of [i * T] by [M], up to
    the rounding of the two operations: [k * M <= i * T <= (k + 1) * M]. *)
Lemma indice_muestra_cotas (T M i : Z) :
  0 < M → 0 <= i < M → M <= T → T * M <= 2 ^ 50 →
  let k := indice_muestra T M i in
  0 <= k ∧ k * M <= i * T ∧ i * T <= (k + 1) * M.
Proof.
  intros HM Hi HT Hcota. cbv zeta. unfold indice_muestra.
  assert (T <= 2 ^ 50 ∧ M <= 2 ^ 50) as [HT' HM'].
  { change (2 ^ 50) with 1125899906842624 in *.
    assert (T <= T * M) by nia. assert (M <= T * M) by nia. lia. }
  destruct (Hredondeo T M i) as (d1 & d2 & Ha & Ha' & Hb & Hb' & Hdiv & Hprod);
    [change (2 ^ 50) with 1125899906842624 in *;
     change (2 ^ 53) with 9007199254740992; lia ..|].
  set (v := producto (inject_Z i) (divide (inject_Z T) (inject_Z M))) in *.
  assert (0 < inject_Z M)%Q as HMq
    by (change 0%Q with (inject_Z 0); by rewrite <- Zlt_Qlt).
  assert (inject_Z M * v
          == inject_Z (i * T) * (1 + d1) * (1 + d2))%Q as Hv.
  { rewrite Hprod, Hdiv, inject_Z_mult. field.
    apply Qnot_eq_sym, Qlt_not_eq, HMq. }
  destruct (error_de_dos_redondeos (inject_Z (i * T)) d1 d2)
    as (Hpos & Hlo & Hhi); try done.
  { change 0%Q with (inject_Z 0). rewrite <- Zle_Qle. nia. }
  { rewrite <- Zle_Qle. change (2 ^ 50) with 1125899906842624 in *. nia. }
  rewrite <- Hv in Hpos, Hlo, Hhi.
  assert (0 <= v)%Q as Hv0 by nra.
  rewrite int_Q_no_negativo by exact Hv0.
  pose proof (Qfloor_le v) as Hf. pose proof (Qlt_floor v) as Hf'.
  rewrite inject_Z_plus in Hf'. change (inject_Z 1) with 1%Q in Hf'.
  set (k := Qfloor v) in *.
  split; [|split].
  - rewrite <- (Qfloor_Z 0). by apply Qfloor_resp_le.
  - apply Z.lt_succ_r. rewrite Zlt_Qlt.
    replace (Z.succ (i * T)) with (i * T + 1) by lia.
    rewrite (inject_Z_mult k M), inject_Z_plus.
    change (inject_Z 1) with 1%Q. nra.
  - apply Z.lt_pred_le. rewrite Zlt_Qlt.
    replace (Z.pred (i * T)) with (i * T + -1) by lia.
    rewrite (inject_Z_mult (k + 1) M), !inject_Z_plus.
    change (inject_Z 1) with 1%Q in *. change (inject_Z (-1)) with (-1)%Q.
    nra.
Qed.

Lemma indice_muestra_rango (T M i : Z) :
  0 < M → 0 <= i < M → M <= T → T * M <= 2 ^ 50 →
  0 <= indice_muestra T M i < T.
Proof.
  intros HM Hi HT Hcota.
  destruct (indice_muestra_cotas T M i HM Hi HT Hcota) as (H0 & Hlo & Hhi).
  split; [exact H0|]. apply (Z.mul_lt_mono_pos_r M); [exact HM | nia].
Qed.

Lemma indice_muestra_creciente (T M a b : Z) :
  0 < M → M < T → T * M <= 2 ^ 50 → 0 <= a → a < b → b < M →
  indice_muestra T M a < indice_muestra T M b.
Proof.
  intros HM HT Hcota Ha Hab Hb.
  destruct (indice_muestra_cotas T M a) as (_ & Hlo & _); [lia..|].
  destruct (indice_muestra_cotas T M b) as (_ & _ & Hhi); [lia..|].
  apply (Z.mul_lt_mono_pos_r M); [exact HM | nia].
Qed.

(** The index is the floor of [i * T / M], or one less when [i * T / M] is
    an integer. *)
Lemma indice_muestra_piso (T M i : Z) :
  0 < M → 0 <= i < M → M <= T → T * M <= 2 ^ 50 →
  indice_muestra T M i = (i * T) / M ∨
  (indice_muestra T M i = (i * T) / M - 1 ∧ (i * T) mod M = 0).
Proof.
  intros HM Hi HT Hcota.
  destruct (indice_muestra_cotas T M i HM Hi HT Hcota) as (_ & Hlo & Hhi).
  pose proof (Z.div_mod (i * T) M ltac:(lia)) as Hdiv.
  pose proof (Z.mod_pos_bound (i * T) M HM) as Hmod.
  revert Hlo Hhi Hdiv Hmod.
  generalize (indice_muestra T M i). intros k.
  generalize ((i * T) / M), ((i * T) mod M). intros f r.
  generalize (i * T). intros P Hlo Hhi Hdiv Hmod.
  assert (k < f + 1) by (apply (Z.mul_lt_mono_pos_r M); lia).
  assert (f < k + 2) by (apply (Z.mul_lt_mono_pos_r M); lia).
  destruct (Z.eq_dec k f) as [-> | Hne]; [by left | right].
  assert (k = f - 1) as -> by lia. split; [done|]. lia.
Qed.

End SeleccionRedondeada.

(** C6 (refuted as stated).  In float64 arithmetic the selected index is
    not always the floor of [i * T / M]: for [T = 30] and [M = 22] the
    quotient rounds to a number below [30 / 22], its product by 11 to
    14.999999999999998, and the leaf selected for [i = 11] is the one at
    index 14, while [floor(11 * 30 / 22) = 15]. *)
Lemma seleccion_bajo_el_piso :
  let hojas := range 30 in
  Z.of_nat (length hojas) = 30 ∧ 0 < 22 < 30 ∧
  Qfloor (11 * (30 / 22)) = 15 ∧
  @indice_muestra binario64 30 22 11 = 14 ∧
  hojas !! 15%nat = Some 15 ∧
  ∃ sel, @seleccionadas binario64 Z hojas 22 = Devuelve sel ∧
         sel !! 11%nat = Some 14.
Proof.
  cbv zeta. split; [reflexivity|]. split; [lia|]. split; [reflexivity|].
  split; [by vm_compute|]. split; [reflexivity|].
  eexists. split; by vm_compute.
Qed.

(** The arithmetic of the machine on small inputs: for every [T] up to 40,
    every cap [M] below [T] and every [i] below [M], the selected index [k]
    satisfies [k * M <= i * T <= (k + 1) * M]. *)
Example seleccion_binario64_hasta_40 :
  forallb (λ T,
    forallb (λ M,
      forallb (λ i,
        let k := @indice_muestra binario64 T M i in
        (0 <=? k) && (k * M <=? i * T) && (i * T <=? (k + 1) * M))
        (range M))
      (seqZ 1 (T - 1)))
    (seqZ 2 39) = true.
Proof. by vm_compute. Qed.

(** C6 (amended).  For [T] occupied leaves and a cap [M]: if [T <= M] the
    selection is the input, unchanged; if [0 < M < T], in an arithmetic
    that rounds the quotient [T / M] and the products [i * paso] to
    nearest, and for [T * M <= 2^50], it is made of the leaves at the
    indices [int(i * paso)] for [i = 0 .. M-1], in that order, so it has
    exactly [M] elements, the indices increase strictly, and the first one
    is 0; the index [int(i * paso)] is [floor(i * T / M)], or one less than
    it when [i * T / M] is an integer. *)
Theorem seleccion_sistematica {ar : Aritmetica} {A : Type}
    (hojas_ocupadas : list A) (M : Z) :
  let T := Z.of_nat (length hojas_ocupadas) in
  (T <= M → seleccionadas hojas_ocupadas M = Devuelve hojas_ocupadas) ∧
  (redondeo_al_mas_cercano → 0 < M < T → T * M <= 2 ^ 50 →
   let idx := (λ i, Z.to_nat (indice_muestra T M i)) <$> range M in
   ∃ sel,
     seleccionadas hojas_ocupadas M = Devuelve sel ∧
     Forall2 (λ i x, hojas_ocupadas !! i = Some x) idx sel ∧
     length sel = Z.to_nat M ∧
     (∀ a b i j, idx !! a = Some i → idx !! b = Some j →
                 (a < b)%nat → (i < j)%nat) ∧
     idx !! 0%nat = Some 0%nat ∧
     (∀ i, 0 <= i < M →
        indice_muestra T M i = (i * T) / M ∨
        (indice_muestra T M i = (i * T) / M - 1 ∧ (i * T) mod M = 0))).
Proof.
  intros T. split.
  - intros HTM. unfold seleccionadas. fold T.
    replace (M <? T) with false by (symmetry; apply Z.ltb_ge; lia).
    by rewrite andb_false_r.
  - intros Hredondeo [HM HMT] Hcota idx. unfold seleccionadas. fold T.
    replace (0 <? M) with true by (symmetry; apply Z.ltb_lt; lia).
    replace (M <? T) with true by (symmetry; apply Z.ltb_lt; lia).
    cbn [andb].
    destruct (comprension_indices hojas_ocupadas (indice_muestra T M)
                (λ i, 0 <= i < M) (range M)) as (sel & Hsel & Hall).
    { intros i Hi. apply indice_muestra_rango; [done | lia..]. }
    { apply range_Forall. }
    exists sel. split; [exact Hsel|].
    assert (∀ a i, idx !! a = Some i →
                   (a < Z.to_nat M)%nat ∧
                   i = Z.to_nat (indice_muestra T M (Z.of_nat a))) as Hidx.
    { intros a i Ha. unfold idx in Ha. rewrite list_lookup_fmap in Ha.
      destruct (range M !! a) as [z|] eqn:Hz; [|discriminate].
      pose proof (lookup_lt_Some _ _ _ Hz) as Hlt.
      rewrite length_range in Hlt. rewrite range_lookup in Hz by done.
      apply (inj Some) in Hz as <-. cbn [fmap option_fmap option_map] in Ha.
      by apply (inj Some) in Ha as <-. }
    split; [|split; [|split; [|split]]].
    + unfold idx. apply Forall2_fmap_l.
      eapply Forall2_impl; [exact Hall|]. by intros i x [Hi Hx].
    + rewrite <- (Forall2_length _ _ _ Hall). apply length_range.
    + intros a b i j Ha Hb Hab.
      destruct (Hidx a i Ha) as [Ha' ->], (Hidx b j Hb) as [Hb' ->].
      apply Z2Nat.inj_lt.
      * apply indice_muestra_rango; [done | lia..].
      * apply indice_muestra_rango; [done | lia..].
      * apply indice_muestra_creciente; [done | lia..].
    + unfold idx. rewrite list_lookup_fmap, range_lookup by lia.
      cbn [fmap option_fmap option_map]. f_equal.
      destruct (indice_muestra_cotas Hredondeo T M 0) as (H0 & Hlo & _);
        [lia..|].
      change (Z.of_nat 0) with 0. nia.
    + intros i Hi. apply indice_muestra_piso; [done | lia..].
Qed.

Lemma seleccion_sistematica_witness :
  (∃ sel, seleccionadas [10; 11; 12; 13; 14; 15; 16] 3 = Devuelve sel ∧
          length sel = 3%nat) ∧
  seleccionadas [10; 11; 12] 3 = Devuelve [10; 11; 12].
Proof.
  split.
  - destruct (proj2 (@seleccion_sistematica exacta Z
                       [10; 11; 12; 13; 14; 15; 16] 3) redondeo_exacto)
      as (sel & Hsel & _ & Hlen & _); [simpl; lia | by vm_compute |].
    exists sel. split; [exact Hsel | exact Hlen].
  - apply (proj1 (@seleccion_sistematica exacta Z [10; 11; 12] 3)).
    simpl. lia.
Defined.

(** C7 (refuted as stated).  With a cap of 0 the selection of a non-empty
    list is that list, not the empty one; the cap is 0 for every cloud of
    fewer than ten points, and the single occupied leaf of a cloud of one
    point is selected. *)
Lemma seleccion_cap_cero_no_vacia :
  seleccionadas [10; 11; 12] 0 = Devuelve [10; 11; 12] ∧
  seleccionadas [10; 11; 12] 0 ≠ Devuelve [] ∧
  max_hojas_auto 1 = 0 ∧
  ∃ hoja, visualizar_seleccion 0 [(0, 0, 0)%Q] = Some (Devuelve [hoja]).
Proof.
  split; [reflexivity|]. split; [discriminate|]. split; [reflexivity|].
  eexists. reflexivity.
Qed.

(** C7 (amended).  With a cap of 0 the selection is the whole input, in its
    original order; it is empty only when the input is. *)
Theorem seleccion_cap_cero {A : Type} (hojas_ocupadas : list A) :
  seleccionadas hojas_ocupadas 0 = Devuelve hojas_ocupadas ∧
  ∀ sel, seleccionadas hojas_ocupadas 0 = Devuelve sel →
         sel = [] ↔ hojas_ocupadas = [].
Proof.
  split; [reflexivity|].
  intros sel Hsel. injection Hsel as <-. done.
Qed.

(** ** The scenarios of the specification *)

(** The eight corners of the unit cube with a cell size of 1: eight cells,
    all occupied, one point each; the corner (1, 1, 1) is counted. *)
Example escenario_cubo_unidad :
  let cubo := (x ← [0; 1]; y ← [0; 1]; z ← [0; 1];
               [(inject_Z x, inject_Z y, inject_Z z)]) in
  ∃ g, RejillaOcupacion.__init__ cubo 1 = Devuelve g ∧
       RejillaOcupacion.rejilla g !! (1, 1, 1) = Some 1 ∧
       RejillaOcupacion.estadisticas_celdas g
       = {| RejillaOcupacion.e_total_celdas := 8;
            RejillaOcupacion.ocupadas := 8;
            RejillaOcupacion.vacias := 0;
            RejillaOcupacion.promedio_puntos := (8 # 8)%Q |}.
Proof. eexists. split; [reflexivity|]. by vm_compute. Qed.

(** A cloud of one point, with its bounding box: a single occupied leaf. *)
Example escenario_un_punto (fuel : nat) (p : Punto) (tmin : Q) (maxp : Z) :
  1 <= maxp →
  ∃ raiz,
    NodoOctree.__init__ fuel [p] (p, p) tmin maxp = Some raiz ∧
    NodoOctree.recopilar_estadisticas raiz
    = {| NodoOctree.total_nodos := 1; NodoOctree.e_hojas := 1;
         NodoOctree.e_internos := 0; NodoOctree.e_hojas_ocupadas := 1;
         NodoOctree.e_hojas_vacias := 0;
         NodoOctree.promedio_puntos := (1 / 1)%Q |}.
Proof.
  intros Hmaxp. eexists. split.
  - apply init_hoja, debe_subdividir_pocos. simpl. lia.
  - reflexivity.
Qed.

(** A thousand occupied leaves with a cap of a hundred: the leaves at the
    indices 0, 10, 20, ..., 990. *)
Example escenario_mil_hojas :
  seleccionadas (range 1000) 100 = Devuelve ((λ i, 10 * i) <$> range 100).
Proof. by vm_compute. Qed.

(** * Further properties of the code *)

(** ** The occupancy grid: cells, counts and ranges *)

Section RejillaCeldas.
Import RejillaOcupacion.
Context {ar : Aritmetica}.

(** The number of points already counted in a cell. *)
Lemma poblar_cuenta (xmin ymin zmin tam : Q) (pts : list Punto)
    (rej : gmap (Z * Z * Z) Z) (c : Z * Z * Z) :
  default 0 (_poblar xmin ymin zmin tam pts rej !! c)
  = default 0 (rej !! c)
    + Z.of_nat (length (filter (λ p, clave xmin ymin zmin tam p = c) pts)).
Proof.
  unfold _poblar. revert rej.
  induction pts as [|p ps IH]; intros rej; [simpl; lia|].
  cbn [foldl]. rewrite IH. unfold contar.
  destruct (decide (clave xmin ymin zmin tam p = c)) as [Heq | Hne].
  - rewrite filter_cons_True, length_cons by done.
    rewrite Heq, lookup_insert_eq. cbn [default from_option id]. lia.
  - rewrite lookup_insert_ne, filter_cons_False by done. lia.
Qed.

Lemma poblar_tamano (xmin ymin zmin tam : Q) (pts : list Punto)
    (rej : gmap (Z * Z * Z) Z) :
  (size (_poblar xmin ymin zmin tam pts rej) ≤ size rej + length pts)%nat.
Proof.
  unfold _poblar. revert rej.
  induction pts as [|p ps IH]; intros rej; [simpl; lia|].
  cbn [foldl]. etrans; [apply IH|]. unfold contar.
  rewrite map_size_insert. destruct (rej !! _); simpl; lia.
Qed.

(** Every stored key is the key of a point of the cloud. *)
Lemma poblar_clave_de_punto (xmin ymin zmin tam : Q) (pts : list Punto)
    (c : Z * Z * Z) :
  is_Some (_poblar xmin ymin zmin tam pts ∅ !! c) →
  ∃ p, p ∈ pts ∧ clave xmin ymin zmin tam p = c.
Proof.
  intros [v Hv].
  pose proof (cuentas_positivas_poblar xmin ymin zmin tam pts ∅
                (map_Forall_empty _) c v Hv) as Hpos.
  pose proof (poblar_cuenta xmin ymin zmin tam pts ∅ c) as Hc.
  rewrite Hv, lookup_empty in Hc. simpl in Hc, Hpos.
  destruct (filter _ pts) as [|p l] eqn:Hf; [simpl in Hc; lia|].
  assert (p ∈ filter (λ p, clave xmin ymin zmin tam p = c) pts) as Hp
    by (rewrite Hf; apply list_elem_of_here).
  apply list_elem_of_filter in Hp as [Hp Hin]. eauto.
Qed.

Lemma length_bind_uniforme {A B : Type} (f : A → list B) (l : list A)
    (n : nat) :
  (∀ x, length (f x) = n) → length (l ≫= f) = (length l * n)%nat.
Proof.
  intros Hf. induction l as [|x l IH]; [done|].
  rewrite bind_cons, length_app, IH, Hf. simpl. lia.
Qed.

(** The cells of a box of [nx * ny * nz] cells. *)
Lemma length_caja (lx ly lz : list Z) :
  length (x ← lx; y ← ly; z ← lz; [(x, y, z)])
  = (length lx * (length ly * length lz))%nat.
Proof.
  apply length_bind_uniforme. intros x.
  apply length_bind_uniforme. intros y.
  rewrite (length_bind_uniforme _ _ 1%nat); [lia | done].
Qed.

Lemma elem_of_caja (lx ly lz : list Z) (i j k : Z) :
  i ∈ lx → j ∈ ly → k ∈ lz → (i, j, k) ∈ (x ← lx; y ← ly; z ← lz; [(x, y, z)]).
Proof.
  intros Hi Hj Hk.
  apply list_elem_of_bind. exists i. split; [|exact Hi].
  apply list_elem_of_bind. exists j. split; [|exact Hj].
  apply list_elem_of_bind. exists k. split; [|exact Hk].
  apply list_elem_of_here.
Qed.

Lemma tamano_en_caja (rej : gmap (Z * Z * Z) Z) (nx ny nz : Z) :
  0 <= nx → 0 <= ny → 0 <= nz →
  (∀ i j k, is_Some (rej !! (i, j, k)) →
            0 <= i < nx ∧ 0 <= j < ny ∧ 0 <= k < nz) →
  Z.of_nat (size rej) <= nx * ny * nz.
Proof.
  intros Hnx Hny Hnz Hcaja.
  assert ((map_to_list rej).*1
          ⊆+ (x ← seqZ 0 nx; y ← seqZ 0 ny; z ← seqZ 0 nz; [(x, y, z)]))
    as Hsub.
  { apply NoDup_submseteq; [apply NoDup_fst_map_to_list|].
    intros [[i j] k] Hk. apply list_elem_of_fmap in Hk as ([c v] & Hc & Hin).
    simpl in Hc. subst c. apply elem_of_map_to_list in Hin.
    destruct (Hcaja i j k) as (? & ? & ?); [by eexists|].
    apply elem_of_caja; apply elem_of_seqZ; lia. }
  apply submseteq_length in Hsub.
  rewrite length_fmap, length_map_to_list, length_caja, !length_seqZ in Hsub.
  nia.
Qed.

End RejillaCeldas.

(** In exact arithmetic the cell index of a point between the corners is
    between 0 and the index of the max corner. *)
Lemma floordiv_rango (a m tam : Q) :
  (0 < tam)%Q → (0 <= a <= m)%Q →
  0 <= floordiv a tam <= Qfloor (m / tam).
Proof.
  intros Htam [Ha Hm]. unfold floordiv. exacto. split.
  - rewrite <- (Qfloor_Z 0). apply Qfloor_resp_le.
    change (inject_Z 0) with 0%Q.
    apply Qle_shift_div_l; [exact Htam | lra].
  - apply Qfloor_resp_le. apply Qle_shift_div_l; [exact Htam|].
    assert (a / tam * tam == a)%Q as -> by (field; lra). exact Hm.
Qed.

(** X2.  In a constructed grid the count stored for a cell is the number of
    points of the cloud whose key is that cell, and a cell has no entry
    exactly when no point has its key. *)
Theorem rejilla_cuenta_por_celda (pts : list Punto) (tam : Q)
    (g : RejillaOcupacion.t) (c : Z * Z * Z) :
  RejillaOcupacion.__init__ pts tam = Devuelve g →
  let clave_de := RejillaOcupacion.clave (RejillaOcupacion.x_minimo g)
                    (RejillaOcupacion.y_minimo g)
                    (RejillaOcupacion.z_minimo g) tam in
  default 0 (RejillaOcupacion.rejilla g !! c)
  = Z.of_nat (length (filter (λ p, clave_de p = c) pts)) ∧
  (RejillaOcupacion.rejilla g !! c = None ↔ ∀ p, p ∈ pts → clave_de p ≠ c).
Proof.
  intros (xmin & ymin & zmin & xmax & ymax & zmax & _ & _ & ->)%init_devuelve.
  cbn [RejillaOcupacion.x_minimo RejillaOcupacion.y_minimo
       RejillaOcupacion.z_minimo RejillaOcupacion.rejilla].
  split.
  - rewrite poblar_cuenta, lookup_empty. simpl. lia.
  - split.
    + intros Hnone p Hp Hc.
      pose proof (poblar_clave_presente xmin ymin zmin tam pts ∅ p Hp) as Hs.
      rewrite Hc, Hnone in Hs. by destruct Hs.
    + intros Hno. apply eq_None_not_Some.
      intros (p & Hp & Hc)%poblar_clave_de_punto. by apply (Hno p).
Qed.

Lemma rejilla_cuenta_por_celda_witness :
  ∃ g, RejillaOcupacion.__init__ [(0, 0, 0); (1, 1, 1); (1, 1, 1)]%Q 1
       = Devuelve g ∧
       default 0 (RejillaOcupacion.rejilla g !! (1, 1, 1)) = 2.
Proof.
  eexists. split; [reflexivity|].
  exact (proj1 (rejilla_cuenta_por_celda
                  [(0, 0, 0); (1, 1, 1); (1, 1, 1)]%Q 1 _ (1, 1, 1) eq_refl)).
Defined.





(** ** The octree: leaves, node counts and the points that are kept *)

Section OctreeHojas.
Import NodoOctree.

Lemma suma_Z_afin (f g : t → Z) (hs : list t) :
  Forall (λ h, f h = 8 * g h + 1) hs →
  suma_Z (f <$> hs) = 8 * suma_Z (g <$> hs) + Z.of_nat (length hs).
Proof.
  induction 1 as [|h hs Hh _ IH]; [done|].
  rewrite !fmap_cons, !suma_Z_cons, length_cons, IH, Hh. lia.
Qed.

(** In a tree whose nodes have no children or eight, there are eight nodes
    for every internal node, and the root. *)
Lemma recursivo_ocho (n : t) :
  (∀ m, m ∈ todos_los_nodos n → hijos m = [] ∨ length (hijos m) = 8%nat) →
  nodos (recursivo n) = 8 * internos (recursivo n) + 1.
Proof.
  induction n as [pts lim tmin maxp hs IH] using t_ind_anidado.
  intros Hocho. destruct hs as [|h hs]; [by simpl; destruct (_ <? _)|].
  destruct (Hocho _ (todos_los_nodos_raiz _)) as [Hnil | Hlen];
    [discriminate|]. cbn [hijos] in Hlen.
  change (recursivo (Nodo pts lim tmin maxp (h :: hs)))
    with (foldl (λ estad h, acumular estad (recursivo h))
            {| nodos := 1; hojas := 0; internos := 1;
               hojas_ocupadas := 0; hojas_vacias := 0; suma_puntos := 0 |}
            (h :: hs)).
  rewrite (foldl_acumular nodos), (foldl_acumular internos) by done.
  cbn [nodos internos].
  rewrite (suma_Z_afin (λ h, nodos (recursivo h))
             (λ h, internos (recursivo h))), Hlen; [lia|].
  apply Forall_forall. intros h' Hh'.
  apply (proj1 (Forall_forall _ _) IH h' Hh').
  intros m Hm. apply Hocho.
  by apply (todos_los_nodos_hijo _ h').
Qed.

Lemma mascara_octante_dentro (lim sub : Limites) (p : Punto) :
  sub ∈ octantes lim → mascara sub p = true → mascara lim p = true.
Proof.
  rewrite !mascara_dentro.
  destruct lim as [[[x0 y0] z0] [[x1 y1] z1]], p as [[x y] z].
  rewrite octantes_lista. cbv zeta. intros Hsub.
  repeat (apply elem_of_cons in Hsub as [-> | Hsub]);
    [..| by apply elem_of_nil in Hsub];
    unfold dentro, px, py, pz; simpl; intros Hd; repeat split; qlra.
Qed.

Lemma filter_ninguno {A : Type} (f : A → bool) (l : list A) :
  (∀ x, x ∈ l → f x = false) → List.filter f l = [].
Proof.
  induction l as [|a l IH]; intros Hf; [done|]. simpl.
  rewrite (Hf a) by apply list_elem_of_here.
  apply IH. intros x Hx. by apply Hf, list_elem_of_further.
Qed.

Lemma filter_todos {A : Type} (f : A → bool) (l : list A) :
  (∀ x, x ∈ l → f x = true) → List.filter f l = l.
Proof.
  induction l as [|a l IH]; intros Hf; [done|]. simpl.
  rewrite (Hf a) by apply list_elem_of_here. f_equal.
  apply IH. intros x Hx. by apply Hf, list_elem_of_further.
Qed.

Lemma filter_unico {A : Type} (f : A → bool) (l : list A) (i : nat) :
  (i < length l)%nat →
  (∀ j x, l !! j = Some x → f x = true ↔ j = i) →
  length (List.filter f l) = 1%nat.
Proof.
  revert i. induction l as [|a l IH]; intros i Hi Hf; [simpl in Hi; lia|].
  simpl. destruct i as [|i].
  - rewrite (proj2 (Hf 0%nat a eq_refl) eq_refl). simpl. f_equal.
    rewrite filter_ninguno; [done|]. intros x [j Hj]%list_elem_of_lookup.
    destruct (f x) eqn:Hx; [|done].
    by apply (Hf (S j) x Hj) in Hx.
  - destruct (f a) eqn:Ha; [by apply (Hf 0%nat a eq_refl) in Ha|].
    apply (IH i); [simpl in Hi; lia|].
    intros j x Hj. rewrite (Hf (S j) x Hj). lia.
Qed.

(** A point passes the mask of one octant if it passes the mask of the
    box that is split, and of none otherwise. *)
Lemma octantes_de_un_punto (lim : Limites) (p : Punto) :
  largo (List.filter (λ sub, mascara sub p) (octantes lim))
  = if mascara lim p then 1 else 0.
Proof.
  unfold largo. destruct (mascara lim p) eqn:Hp.
  - apply mascara_dentro in Hp.
    rewrite (filter_unico _ _ (indice_octante lim p)); [done | |].
    + rewrite length_octantes. apply indice_octante_lt.
    + intros j sub Hj. by apply mascara_indice.
  - rewrite filter_ninguno; [done|]. intros sub Hsub.
    destruct (mascara sub p) eqn:Hsubp; [|done].
    by rewrite (mascara_octante_dentro lim sub p Hsub Hsubp) in Hp.
Qed.

Lemma suma_mascaras_cons (subs : list Limites) (p : Punto)
    (ps : list Punto) :
  suma_Z ((λ sub, largo (List.filter (mascara sub) (p :: ps))) <$> subs)
  = largo (List.filter (λ sub, mascara sub p) subs)
    + suma_Z ((λ sub, largo (List.filter (mascara sub) ps)) <$> subs).
Proof.
  induction subs as [|sub subs IH]; [done|].
  rewrite !fmap_cons, !suma_Z_cons, IH. unfold largo. simpl.
  destruct (mascara sub p); simpl; lia.
Qed.

(** The octants receive, together, the points inside the box. *)
Lemma suma_octantes (lim : Limites) (pts : list Punto) :
  suma_Z ((λ sub, largo (List.filter (mascara sub) pts)) <$> octantes lim)
  = largo (List.filter (mascara lim) pts).
Proof.
  induction pts as [|p ps IH].
  - by destruct lim as [[[x0 y0] z0] [[x1 y1] z1]].
  - rewrite suma_mascaras_cons, IH, octantes_de_un_punto. unfold largo.
    simpl. destruct (mascara lim p); simpl; lia.
Qed.

Lemma filter_filter_mismo {A : Type} (f : A → bool) (l : list A) :
  List.filter f (List.filter f l) = List.filter f l.
Proof.
  apply filter_todos. intros x Hx%list_elem_of_In.
  by apply filter_In in Hx as [_ Hx].
Qed.

Lemma puntos_en_concat (ls : list (list t)) :
  puntos_en (concat ls) = suma_Z (puntos_en <$> ls).
Proof.
  induction ls as [|l ls IH]; [done|].
  cbn [concat]. by rewrite puntos_en_app, fmap_cons, suma_Z_cons, IH.
Qed.

Lemma suma_Z_Forall2 {A B : Type} (F : B → Z) (G : A → Z) (l : list A)
    (k : list B) :
  Forall2 (λ a b, F b = G a) l k → suma_Z (F <$> k) = suma_Z (G <$> l).
Proof.
  induction 1 as [|a b l k Hab _ IH]; [done|].
  by rewrite !fmap_cons, !suma_Z_cons, IH, Hab.
Qed.

(** The leaves of a constructed tree hold all the points of a root that is
    a leaf, and the points inside the bounds of a root that subdivides. *)
Lemma init_puntos_en_hojas (fuel : nat) pts lim tmin maxp n :
  __init__ fuel pts lim tmin maxp = Some n →
  puntos_en (obtener_nodos_hoja n)
  = largo (if debe_subdividir pts lim tmin maxp
           then List.filter (mascara lim) pts else pts).
Proof.
  revert pts lim n. induction fuel as [|fuel IH]; intros pts lim n Hn;
    destruct (debe_subdividir pts lim tmin maxp) eqn:Hd;
    try (rewrite init_hoja in Hn by done; injection Hn as <-;
         unfold puntos_en, largo, suma_Z; simpl; lia).
  - by destruct (init_interno _ _ _ _ _ _ Hd Hn) as (? & ? & ? & _).
  - destruct (init_interno _ _ _ _ _ _ Hd Hn) as (f & hs & [= <-] & -> & Hhs).
    pose proof (Forall2_length _ _ _ Hhs) as Hlen.
    rewrite length_octantes in Hlen.
    destruct hs as [|h hs]; [discriminate|].
    rewrite obtener_nodos_hoja_interno, puntos_en_concat.
    rewrite <- suma_octantes, <- list_fmap_compose.
    apply (suma_Z_Forall2 (puntos_en ∘ obtener_nodos_hoja)).
    eapply Forall2_impl; [exact Hhs|]. intros sub h' Hh'. simpl in Hh'.
    unfold compose. rewrite (IH _ _ _ Hh').
    by destruct (debe_subdividir _ sub tmin maxp);
      rewrite ?filter_filter_mismo.
Qed.

Lemma puntos_en_ocupadas (l : list t) :
  puntos_en (List.filter (λ n, 0 <? Z.of_nat (length (puntos n))) l)
  = puntos_en l.
Proof.
  induction l as [|n l IH]; [done|]. simpl.
  destruct (0 <? _) eqn:Hn.
  - unfold puntos_en in *. by rewrite !fmap_cons, !suma_Z_cons, IH.
  - unfold puntos_en in *. rewrite fmap_cons, suma_Z_cons, IH.
    apply Z.ltb_ge in Hn. lia.
Qed.

Lemma length_filter_menor {A : Type} (f : A → bool) (l : list A) (x : A) :
  x ∈ l → f x = false → (length (List.filter f l) < length l)%nat.
Proof.
  intros Hx. induction Hx as [x l | x y l _ IH]; intros Hf; simpl.
  - rewrite Hf. pose proof (List.filter_length_le f l). lia.
  - specialize (IH Hf). destruct (f y); simpl; lia.
Qed.

(** Some point of a cloud lies on the max face of its bounding box. *)
Lemma limites_de_en_maximo (pts : list Punto) (lim : Limites) :
  limites_de pts = Devuelve lim → ∃ p, p ∈ pts ∧ en_maximo lim p.
Proof.
  destruct pts as [|p0 ps]; [discriminate|]. intros [= <-].
  destruct (np_max_alcanzado (px p0) (px <$> ps)) as [H | (y & Hy & H)].
  - exists p0. split; [apply list_elem_of_here|]. left. simpl. by symmetry.
  - apply list_elem_of_fmap in Hy as (p & -> & Hp).
    exists p. split; [by apply list_elem_of_further|]. left. simpl.
    by symmetry.
Qed.

Lemma sublist_filter {A : Type} (f : A → bool) (l : list A) :
  List.filter f l `sublist_of` l.
Proof.
  induction l as [|a l IH]; [constructor|]. simpl.
  destruct (f a); by constructor.
Qed.

End OctreeHojas.

(** X5.  [obtener_nodos_hoja] returns exactly the nodes without children,
    in the order of the depth-first traversal of the tree. *)
Theorem obtener_nodos_hoja_es_filtro (n : NodoOctree.t) :
  NodoOctree.obtener_nodos_hoja n = List.filter es_hoja (todos_los_nodos n) ∧
  Forall (λ h, NodoOctree.hijos h = []) (NodoOctree.obtener_nodos_hoja n).
Proof.
  assert (NodoOctree.obtener_nodos_hoja n
          = List.filter es_hoja (todos_los_nodos n)) as Heq.
  { induction n as [pts lim tmin maxp hs IH] using t_ind_anidado.
    destruct hs as [|h hs]; [done|].
    rewrite obtener_nodos_hoja_interno.
    cbn [todos_los_nodos List.filter es_hoja NodoOctree.hijos].
    rewrite filter_concat_map. f_equal.
    apply map_ext_in. intros h' Hh'%list_elem_of_In.
    exact (proj1 (Forall_forall _ _) IH h' Hh'). }
  split; [exact Heq|]. rewrite Heq. apply Forall_forall.
  intros h Hh%list_elem_of_In. apply filter_In in Hh as [_ Hh].
  unfold es_hoja in Hh. by destruct (NodoOctree.hijos h).
Qed.

(** X6.  A constructed octree has eight nodes for each internal node, and
    the root: [total_nodos = 8 * internos + 1] and
    [hojas = 7 * internos + 1]. *)
Theorem octree_conteo_nodos (fuel : nat) (pts : list Punto) (lim : Limites)
    (tmin : Q) (maxp : Z) (raiz : NodoOctree.t) :
  NodoOctree.__init__ fuel pts lim tmin maxp = Some raiz →
  let e := NodoOctree.recopilar_estadisticas raiz in
  NodoOctree.total_nodos e = 8 * NodoOctree.e_internos e + 1 ∧
  NodoOctree.e_hojas e = 7 * NodoOctree.e_internos e + 1.
Proof.
  intros Hraiz. cbv zeta. unfold NodoOctree.recopilar_estadisticas.
  cbn [NodoOctree.total_nodos NodoOctree.e_hojas NodoOctree.e_internos].
  pose proof (recursivo_nodos_balance raiz) as Hbal.
  pose proof (recursivo_ocho raiz
                (λ m Hm, init_cero_u_ocho _ _ _ _ _ _ _ Hraiz Hm)) as Hocho.
  lia.
Qed.

Lemma octree_conteo_nodos_witness :
  ∃ raiz,
    NodoOctree.__init__ 2 [(0, 0, 0); (1 # 8, 0, 0); (3 # 4, 0, 0)]%Q
      ((0, 0, 0), (1, 1, 1))%Q (1 # 4) 1 = Some raiz ∧
    NodoOctree.total_nodos (NodoOctree.recopilar_estadisticas raiz)
    = 8 * NodoOctree.e_internos (NodoOctree.recopilar_estadisticas raiz) + 1.
Proof.
  eexists. split; [reflexivity|].
  exact (proj1 (octree_conteo_nodos 2
                  [(0, 0, 0); (1 # 8, 0, 0); (3 # 4, 0, 0)]%Q
                  ((0, 0, 0), (1, 1, 1))%Q (1 # 4) 1 _ eq_refl)).
Defined.





Section OctreePuntos.
Import NodoOctree.

Lemma init_sublista (fuel : nat) pts lim tmin maxp raiz n :
  __init__ fuel pts lim tmin maxp = Some raiz →
  n ∈ todos_los_nodos raiz → puntos n `sublist_of` pts.
Proof.
  revert pts lim raiz. induction fuel as [|fuel IH]; intros pts lim raiz Hr Hn;
    pose proof (init_hijos _ _ _ _ _ _ Hr) as Hhs;
    destruct (init_campos _ _ _ _ _ _ Hr) as (Hpts & _);
    apply todos_los_nodos_inv in Hn as [-> | (h & Hh & Hn)];
    try (by rewrite Hpts);
    destruct (debe_subdividir pts lim tmin maxp);
    try (rewrite Hhs in Hh; by apply elem_of_nil in Hh).
  - by destruct Hhs as (? & ? & _).
  - destruct Hhs as (f & [= <-] & Hhs).
    destruct (Forall2_elem_r _ _ _ _ Hhs Hh) as (sub & _ & Hsub).
    etrans; [exact (IH _ _ _ Hsub Hn) | apply sublist_filter].
Qed.

End OctreePuntos.

(** X9.  The points of every node of a constructed octree are points of the
    cloud, in their original order, and the points of every node below the
    root lie in the half-open box of the bounds of that node. *)
Theorem octree_puntos_de_los_nodos (fuel : nat) (pts : list Punto)
    (lim : Limites) (tmin : Q) (maxp : Z) (raiz n : NodoOctree.t) :
  NodoOctree.__init__ fuel pts lim tmin maxp = Some raiz →
  n ∈ todos_los_nodos raiz →
  NodoOctree.puntos n `sublist_of` pts ∧
  (n = raiz ∨ Forall (dentro (NodoOctree.limites n)) (NodoOctree.puntos n)).
Proof.
  intros Hraiz Hn. split; [exact (init_sublista _ _ _ _ _ _ _ Hraiz Hn)|].
  destruct (init_subnodos _ _ _ _ _ _ _ Hraiz Hn)
    as [-> | (f & ps & sub & Hinit)]; [by left | right].
  destruct (init_campos _ _ _ _ _ _ Hinit) as (-> & -> & _).
  apply Forall_forall. intros p Hp.
  by apply elem_of_filter_mascara in Hp as [_ Hp].
Qed.

Lemma octree_puntos_de_los_nodos_witness :
  ∃ raiz,
    NodoOctree.__init__ 1 [(0, 0, 0); (1 # 4, 0, 0); (1, 1, 1)]%Q
      ((0, 0, 0), (1, 1, 1))%Q (1 # 2) 1 = Some raiz ∧
    NodoOctree.puntos raiz
    `sublist_of` [(0, 0, 0); (1 # 4, 0, 0); (1, 1, 1)]%Q.
Proof.
  eexists. split; [reflexivity|].
  exact (proj1 (octree_puntos_de_los_nodos 1
                  [(0, 0, 0); (1 # 4, 0, 0); (1, 1, 1)]%Q
                  ((0, 0, 0), (1, 1, 1))%Q (1 # 2) 1 _ _ eq_refl
                  (todos_los_nodos_raiz _))).
Defined.

(** ** The octree: no point is placed twice *)

Section OctreeSinDuplicados.
Import NodoOctree.
Context {ar : Aritmetica}.

(** A point that passes the mask of an octant passes it at
    [indice_octante], wherever the computed midpoints lie. *)
Lemma mascara_indice_unico (lim sub : Limites) (p : Punto) (j : nat) :
  octantes lim !! j = Some sub → mascara sub p = true →
  j = indice_octante lim p.
Proof.
  destruct lim as [[[x0 y0] z0] [[x1 y1] z1]], p as [[x y] z].
  rewrite octantes_lista, mascara_dentro. cbv zeta.
  unfold indice_octante, dentro, px, py, pz. simpl.
  generalize (divide (suma x0 x1) 2), (divide (suma y0 y1) 2),
    (divide (suma z0 z1) 2).
  intros mx my mz Hj.
  destruct (Qle_bool mx x) eqn:Ex;
    [apply Qle_bool_iff in Ex | apply Qle_bool_false_iff in Ex];
  (destruct (Qle_bool my y) eqn:Ey;
    [apply Qle_bool_iff in Ey | apply Qle_bool_false_iff in Ey]);
  (destruct (Qle_bool mz z) eqn:Ez;
    [apply Qle_bool_iff in Ez | apply Qle_bool_false_iff in Ez]);
  simpl;
  do 8 (destruct j as [|j];
        [injection Hj as <-; simpl;
         intros ?; first [reflexivity | exfalso; lra] |]);
  discriminate.
Qed.

Lemma filter_a_lo_sumo_uno {B : Type} (f : B → bool) (l : list B) (i : nat) :
  (∀ j x, l !! j = Some x → f x = true → j = i) →
  (length (List.filter f l) ≤ 1)%nat.
Proof.
  revert i. induction l as [|a l IH]; intros i Hf; [simpl; lia|].
  simpl. destruct (f a) eqn:Ha.
  - rewrite filter_ninguno; [simpl; lia|].
    intros x [j Hj]%list_elem_of_lookup.
    destruct (f x) eqn:Hx; [|done].
    pose proof (Hf 0%nat a eq_refl Ha). pose proof (Hf (S j) x Hj Hx). lia.
  - destruct i as [|i].
    + rewrite filter_ninguno; [simpl; lia|].
      intros x [j Hj]%list_elem_of_lookup.
      destruct (f x) eqn:Hx; [|done].
      pose proof (Hf (S j) x Hj Hx). lia.
    + apply (IH i). intros j x Hj Hx.
      pose proof (Hf (S j) x Hj Hx). lia.
Qed.

(** The octants receive, together, no more points than there are. *)
Lemma suma_octantes_cota (lim : Limites) (pts : list Punto) :
  suma_Z ((λ sub, largo (List.filter (mascara sub) pts)) <$> octantes lim)
  <= largo pts.
Proof.
  induction pts as [|p ps IH].
  - by destruct lim as [[[x0 y0] z0] [[x1 y1] z1]].
  - rewrite suma_mascaras_cons.
    pose proof (filter_a_lo_sumo_uno (λ sub, mascara sub p) (octantes lim)
                  (indice_octante lim p)
                  (λ j sub, mascara_indice_unico lim sub p j)) as Huno.
    unfold largo in *. simpl. lia.
Qed.

Lemma suma_Z_Forall2_le {B C : Type} (F : C → Z) (G : B → Z) (l : list B)
    (k : list C) :
  Forall2 (λ a b, F b <= G a) l k → suma_Z (F <$> k) <= suma_Z (G <$> l).
Proof.
  induction 1 as [|a b l k Hab _ IH]; [done|].
  rewrite !fmap_cons, !suma_Z_cons. lia.
Qed.

(** The leaves of a constructed tree hold no more points than the cloud. *)
Lemma init_puntos_en_hojas_cota (fuel : nat) pts lim tmin maxp n :
  __init__ fuel pts lim tmin maxp = Some n →
  puntos_en (obtener_nodos_hoja n) <= largo pts.
Proof.
  revert pts lim n. induction fuel as [|fuel IH]; intros pts lim n Hn;
    destruct (debe_subdividir pts lim tmin maxp) eqn:Hd;
    try (rewrite init_hoja in Hn by done; injection Hn as <-;
         unfold puntos_en, largo, suma_Z; simpl; lia).
  - by destruct (init_interno _ _ _ _ _ _ Hd Hn) as (? & ? & ? & _).
  - destruct (init_interno _ _ _ _ _ _ Hd Hn) as (f & hs & [= <-] & -> & Hhs).
    pose proof (Forall2_length _ _ _ Hhs) as Hlen.
    rewrite length_octantes in Hlen.
    destruct hs as [|h hs]; [discriminate|].
    rewrite obtener_nodos_hoja_interno, puntos_en_concat.
    etrans; [|apply (suma_octantes_cota lim)].
    rewrite <- list_fmap_compose.
    apply (suma_Z_Forall2_le (puntos_en ∘ obtener_nodos_hoja)).
    eapply Forall2_impl; [exact Hhs|]. intros sub h' Hh'. simpl in Hh'.
    unfold compose. etrans; [exact (IH _ _ _ Hh')|].
    unfold largo. pose proof (List.filter_length_le (mascara sub) pts). lia.
Qed.

(** There are no more occupied nodes in a list than points in them. *)
Lemma largo_ocupadas (l : list t) :
  largo (List.filter (λ n, 0 <? Z.of_nat (length (puntos n))) l)
  <= puntos_en l.
Proof.
  unfold largo, puntos_en.
  induction l as [|n l IH]; [done|].
  rewrite fmap_cons, suma_Z_cons. cbn [List.filter].
  destruct (0 <? _) eqn:Hn; [apply Z.ltb_lt in Hn | apply Z.ltb_ge in Hn];
    cbn [length]; lia.
Qed.

Lemma init_hojas_ocupadas_cota (fuel : nat) pts lim tmin maxp n :
  __init__ fuel pts lim tmin maxp = Some n →
  largo (hojas_ocupadas_de n) <= puntos_en (hojas_ocupadas_de n) ∧
  puntos_en (hojas_ocupadas_de n) <= largo pts.
Proof.
  intros Hn. unfold hojas_ocupadas_de. split.
  - rewrite puntos_en_ocupadas. apply largo_ocupadas.
  - rewrite puntos_en_ocupadas.
    exact (init_puntos_en_hojas_cota _ _ _ _ _ _ Hn).
Qed.

End OctreeSinDuplicados.

(** X17.  In every arithmetic, wherever the computed midpoints lie, a
    point is placed in at most one child of a node that subdivides, and the
    occupied leaves of a constructed octree hold, together, no more points
    than the cloud; so there are no more occupied leaves than points. *)
Theorem octree_sin_duplicados {ar : Aritmetica} (fuel : nat)
    (pts : list Punto) (lim : Limites) (tmin : Q) (maxp : Z)
    (raiz : NodoOctree.t) :
  NodoOctree.__init__ fuel pts lim tmin maxp = Some raiz →
  (∀ n p i j hi hj,
     n ∈ todos_los_nodos raiz →
     NodoOctree.hijos n !! i = Some hi → NodoOctree.hijos n !! j = Some hj →
     p ∈ NodoOctree.puntos hi → p ∈ NodoOctree.puntos hj → i = j) ∧
  puntos_en (hojas_ocupadas_de raiz) <= largo pts ∧
  largo (hojas_ocupadas_de raiz) <= largo pts.
Proof.
  intros Hraiz.
  destruct (init_hojas_ocupadas_cota _ _ _ _ _ _ Hraiz) as [H1 H2].
  split; [|split; [exact H2 | lia]].
  intros n p i j hi hj Hn Hi Hj Hpi Hpj.
  destruct (init_subnodos_construidos _ _ _ _ _ _ _ Hraiz Hn)
    as (f & ps & l & Hinit).
  pose proof (init_hijos _ _ _ _ _ _ Hinit) as Hhs.
  destruct (NodoOctree.debe_subdividir ps l tmin maxp) eqn:Hd;
    [clear Hhs | by rewrite Hhs in Hi].
  pose proof (init_hijos_campos _ _ _ _ _ _ Hinit Hd) as Hcampos.
  destruct (Forall2_lookup_r _ _ _ _ _ Hcampos Hi)
    as (si & Hsi & _ & Hphi & _).
  destruct (Forall2_lookup_r _ _ _ _ _ Hcampos Hj)
    as (sj & Hsj & _ & Hphj & _).
  rewrite Hphi in Hpi. rewrite Hphj in Hpj.
  apply elem_of_filter_mascara in Hpi as [_ Hpi].
  apply elem_of_filter_mascara in Hpj as [_ Hpj].
  apply mascara_dentro in Hpi, Hpj.
  rewrite (mascara_indice_unico l si p i Hsi Hpi).
  by rewrite (mascara_indice_unico l sj p j Hsj Hpj).
Qed.

Lemma octree_sin_duplicados_witness :
  ∃ raiz,
    NodoOctree.__init__ 1 [(0, 0, 0); (1 # 4, 0, 0); (1, 1, 1)]%Q
      ((0, 0, 0), (1, 1, 1))%Q (1 # 2) 1 = Some raiz ∧
    largo (hojas_ocupadas_de raiz) <= 3.
Proof.
  eexists. split; [reflexivity|].
  exact (proj2 (proj2 (@octree_sin_duplicados exacta 1
                  [(0, 0, 0); (1 # 4, 0, 0); (1, 1, 1)]%Q
                  ((0, 0, 0), (1, 1, 1))%Q (1 # 2) 1 _ eq_refl))).
Defined.

(** ** The leaf selection and the parameters of [visualizar_archivo] *)

Section SeleccionCota.
Context {A : Type}.

(** The selection returns a list of elements of its input: as many as the
    cap when the cap is positive and below the number of elements, and all
    of them otherwise. *)
Lemma seleccionadas_resultado (l : list A) (M : Z) :
  ∃ sel, seleccionadas l M = Devuelve sel ∧
         (∀ x, x ∈ sel → x ∈ l) ∧
         largo sel = if (0 <? M) && (M <? largo l) then M else largo l.
Proof.
  unfold seleccionadas. fold (largo l).
  destruct ((0 <? M) && (M <? largo l)) eqn:Hcond; [|by exists l].
  apply andb_true_iff in Hcond as [HM HMT].
  apply Z.ltb_lt in HM, HMT.
  destruct (comprension_indices l (indice_muestra (largo l) M)
              (λ i, 0 <= i < M) (range M)) as (sel & Hsel & Hall).
  { intros i Hi. unfold largo in *. rewrite indice_muestra_div by lia.
    apply div_muestra_rango; lia. }
  { apply range_Forall. }
  exists sel. split; [exact Hsel|]. split.
  - intros x Hx. destruct (Forall2_elem_r _ _ _ _ Hall Hx) as (i & _ & _ & Hi).
    apply list_elem_of_lookup. eauto.
  - unfold largo at 1. rewrite <- (Forall2_length _ _ _ Hall), length_range.
    lia.
Qed.

End SeleccionCota.

Section SeleccionRedondeadaCota.
Context {ar : Aritmetica} {A : Type}.
Hypothesis Hredondeo : redondeo_al_mas_cercano.

(** The same in an arithmetic that rounds to nearest, for lists and caps
    whose product is at most [2^50]. *)
Lemma seleccionadas_redondeada (l : list A) (M : Z) :
  largo l * M <= 2 ^ 50 →
  ∃ sel, seleccionadas l M = Devuelve sel ∧
         (∀ x, x ∈ sel → x ∈ l) ∧
         largo sel = if (0 <? M) && (M <? largo l) then M else largo l.
Proof.
  intros Hcota. unfold seleccionadas. fold (largo l).
  destruct ((0 <? M) && (M <? largo l)) eqn:Hcond; [|by exists l].
  apply andb_true_iff in Hcond as [HM HMT].
  apply Z.ltb_lt in HM, HMT.
  destruct (comprension_indices l (indice_muestra (largo l) M)
              (λ i, 0 <= i < M) (range M)) as (sel & Hsel & Hall).
  { intros i Hi. fold (largo l).
    apply indice_muestra_rango; [done | lia..]. }
  { apply range_Forall. }
  exists sel. split; [exact Hsel|]. split.
  - intros x Hx. destruct (Forall2_elem_r _ _ _ _ Hall Hx) as (i & _ & _ & Hi).
    apply list_elem_of_lookup. eauto.
  - unfold largo at 1. rewrite <- (Forall2_length _ _ _ Hall), length_range.
    lia.
Qed.

(** The cap [max_hojas] is at most 10000, and it is positive for a cloud
    of more than ten points. *)
Lemma max_hojas_auto_cota (N : Z) : max_hojas_auto N <= 10000.
Proof. unfold max_hojas_auto. lia. Qed.

Lemma max_hojas_auto_cero (N : Z) :
  0 <= N <= 2 ^ 53 → max_hojas_auto N <= 0 → N <= 10.
Proof.
  intros HN HM. unfold max_hojas_auto in HM.
  destruct (Hredondeo N 10 0) as (d & _ & Hd & _ & _ & _ & Hdiv & _);
    [done | by vm_compute | by vm_compute |].
  change (inject_Z 10) with 10%Q in Hdiv.
  set (q := divide (inject_Z N) 10) in *.
  assert (0 <= inject_Z N)%Q as HNq
    by (change 0%Q with (inject_Z 0); rewrite <- Zle_Qle; lia).
  unfold unidad_de_redondeo in Hd.
  assert (0 <= q)%Q as Hq.
  { rewrite Hdiv. unfold Qdiv. change (/ 10)%Q with (1 # 10)%Q. nra. }
  assert (int_Q q <= 0) as Hint by lia.
  rewrite int_Q_no_negativo in Hint by exact Hq.
  pose proof (Qlt_floor q) as Hf.
  assert (q < 1)%Q as Hq1.
  { eapply Qlt_le_trans; [exact Hf|].
    change 1%Q with (inject_Z 1). rewrite <- Zle_Qle. lia. }
  apply Z.lt_succ_r. rewrite Zlt_Qlt. change (inject_Z (Z.succ 10)) with 11%Q.
  rewrite Hdiv in Hq1. unfold Qdiv in Hq1.
  change (/ 10)%Q with (1 # 10)%Q in Hq1. nra.
Qed.

End SeleccionRedondeadaCota.


(** X11.  For an empty cloud [visualizar_archivo] raises [IndexError].  For
    a cloud that is not empty, of at most [2^36] points, in an arithmetic
    that rounds to nearest: once the octree is constructed, the selection
    does not fail, and hands to the renderer at most 10000 leaves, all of
    them occupied leaves of that octree. *)
Theorem visualizar_acotado {ar : Aritmetica} (pts : list Punto) :
  (pts = [] → ∀ fuel, visualizar_seleccion fuel pts
                      = Some (Lanza "IndexError")) ∧
  (redondeo_al_mas_cercano → pts ≠ [] → largo pts <= 2 ^ 36 →
   ∃ lim,
     limites_de pts = Devuelve lim ∧
     ∀ fuel octree,
       NodoOctree.__init__ fuel pts lim (tam_minimo_auto lim)
         (maximo_puntos_auto (largo pts)) = Some octree →
       ∃ sel,
         visualizar_seleccion fuel pts = Some (Devuelve sel) ∧
         (∀ h, h ∈ sel → h ∈ hojas_ocupadas_de octree) ∧
         largo sel <= 10000).
Proof.
  split; [by intros ->|]. intros Hredondeo Hpts HN.
  destruct (limites_de pts) as [lim|e] eqn:Hlim;
    [|destruct pts; [done | discriminate]].
  exists lim. split; [done|]. intros fuel octree Hoct.
  change (2 ^ 36) with 68719476736 in HN.
  assert (largo (hojas_ocupadas_de octree) <= 68719476736) as HT.
  { destruct (init_hojas_ocupadas_cota _ _ _ _ _ _ Hoct). lia. }
  pose proof (max_hojas_auto_cota (largo pts)) as HM.
  assert (0 <= largo (hojas_ocupadas_de octree)) as HT0 by (unfold largo; lia).
  destruct (seleccionadas_redondeada Hredondeo (hojas_ocupadas_de octree)
              (max_hojas_auto (largo pts))) as (sel & Hsel & Hsub & Hlen).
  { change (2 ^ 50) with 1125899906842624.
    destruct (Z.le_gt_cases (max_hojas_auto (largo pts)) 0); nia. }
  exists sel. split; [|split; [exact Hsub|]].
  - unfold visualizar_seleccion. rewrite Hlim. fold (largo pts).
    rewrite Hoct. simpl. by rewrite Hsel.
  - rewrite Hlen.
    destruct (0 <? max_hojas_auto (largo pts)) eqn:HM0; cbn [andb].
    + destruct (_ <? largo (hojas_ocupadas_de octree)) eqn:HMT; [lia|].
      apply Z.ltb_ge in HMT. lia.
    + apply Z.ltb_ge in HM0.
      assert (largo pts <= 10) as Hpocos.
      { apply (max_hojas_auto_cero Hredondeo); [|done].
        change (2 ^ 53) with 9007199254740992. unfold largo in *. lia. }
      rewrite init_hoja in Hoct.
      * injection Hoct as <-.
        unfold hojas_ocupadas_de, largo. simpl.
        destruct (0 <? _); simpl; lia.
      * apply debe_subdividir_pocos. unfold maximo_puntos_auto.
        unfold largo in *. lia.
Qed.

Lemma visualizar_acotado_witness :
  ∃ sel, visualizar_seleccion 6 [(0, 0, 0); (1, 2, 3)]%Q
         = Some (Devuelve sel) ∧ largo sel <= 10000.
Proof.
  destruct (proj2 (@visualizar_acotado exacta [(0, 0, 0); (1, 2, 3)]%Q)
              redondeo_exacto)
    as (lim & Hlim & Hsel); [discriminate | by vm_compute |].
  injection Hlim as <-.
  destruct (Hsel 6%nat _ eq_refl) as (sel & Hsel' & _ & Hlen).
  exists sel. split; [exact Hsel' | exact Hlen].
Defined.

(** ** The octree: the boxes of the nodes *)

Section OctreeCajas.
Import NodoOctree.
Context {ar : Aritmetica}.
Hypothesis Hmedio : medio_entre_extremos.

Lemma octante_contenido (lim sub : Limites) :
  sub ∈ octantes lim → ordenados lim → ordenados sub ∧ contenida sub lim.
Proof.
  destruct lim as [[[x0 y0] z0] [[x1 y1] z1]].
  rewrite octantes_lista. cbv zeta. unfold ordenados, contenida, px, py, pz.
  simpl. intros Hsub (Hx & Hy & Hz).
  destruct (proj1 (Hmedio x0 x1) Hx), (proj1 (Hmedio y0 y1) Hy),
    (proj1 (Hmedio z0 z1) Hz).
  repeat (apply elem_of_cons in Hsub as [-> | Hsub]);
    [..| by apply elem_of_nil in Hsub];
    simpl; repeat split; lra.
Qed.

Lemma contenida_trans (a b c : Limites) :
  contenida a b → contenida b c → contenida a c.
Proof. unfold contenida. intros Hab Hbc. repeat split; lra. Qed.

Lemma contenida_refl (a : Limites) : contenida a a.
Proof. unfold contenida. repeat split; lra. Qed.

Lemma init_cajas (fuel : nat) pts lim tmin maxp raiz n :
  __init__ fuel pts lim tmin maxp = Some raiz →
  ordenados lim → n ∈ todos_los_nodos raiz →
  ordenados (limites n) ∧ contenida (limites n) lim.
Proof.
  revert pts lim raiz.
  induction fuel as [|fuel IH]; intros pts lim raiz Hr Hord Hn;
    pose proof (init_hijos _ _ _ _ _ _ Hr) as Hhs;
    destruct (init_campos _ _ _ _ _ _ Hr) as (_ & Hlim & _);
    apply todos_los_nodos_inv in Hn as [-> | (h & Hh & Hn)];
    try (rewrite Hlim; split; [exact Hord | apply contenida_refl]);
    destruct (debe_subdividir pts lim tmin maxp);
    try (rewrite Hhs in Hh; by apply elem_of_nil in Hh).
  - by destruct Hhs as (? & ? & _).
  - destruct Hhs as (f & [= <-] & Hhs).
    destruct (Forall2_elem_r _ _ _ _ Hhs Hh) as (sub & Hsub & Hinit).
    destruct (octante_contenido lim sub Hsub Hord) as [Hord' Hcont].
    destruct (IH _ _ _ Hinit Hord' Hn) as [Hn1 Hn2].
    split; [exact Hn1 | by apply (contenida_trans _ sub)].
Qed.

End OctreeCajas.

(** X12.  In an arithmetic whose midpoints lie between their arguments and
    whose differences have the sign of the exact ones: in an octree
    constructed on bounds whose min corner is at or below the max corner,
    the bounds of every node are ordered in the same way and lie within the
    bounds of the root; the wireframe cube of a node has sides that are not
    negative, and its centre lies between the corners of the bounds of the
    node. *)
Theorem octree_cajas {ar : Aritmetica} (fuel : nat) (pts : list Punto)
    (lim : Limites) (tmin : Q) (maxp : Z) (raiz n : NodoOctree.t) :
  medio_entre_extremos → resta_con_signo →
  NodoOctree.__init__ fuel pts lim tmin maxp = Some raiz →
  ordenados lim → n ∈ todos_los_nodos raiz →
  ordenados (NodoOctree.limites n) ∧
  contenida (NodoOctree.limites n) lim ∧
  (0 <= px (longitudes n) ∧ 0 <= py (longitudes n) ∧
   0 <= pz (longitudes n))%Q ∧
  (px (NodoOctree.limites n).1 <= px (centro n) ∧
   px (centro n) <= px (NodoOctree.limites n).2 ∧
   py (NodoOctree.limites n).1 <= py (centro n) ∧
   py (centro n) <= py (NodoOctree.limites n).2 ∧
   pz (NodoOctree.limites n).1 <= pz (centro n) ∧
   pz (centro n) <= pz (NodoOctree.limites n).2)%Q.
Proof.
  intros Hmedio Hresta Hraiz Hord Hn.
  destruct (init_cajas Hmedio _ _ _ _ _ _ _ Hraiz Hord Hn) as [Hn1 Hn2].
  split; [exact Hn1|]. split; [exact Hn2|].
  unfold centro, longitudes, ordenados in *.
  destruct (NodoOctree.limites n) as [[[x0 y0] z0] [[x1 y1] z1]].
  unfold px, py, pz in *. cbn [fst snd] in *.
  destruct Hn1 as (Hx & Hy & Hz).
  destruct (proj1 (Hmedio x0 x1) Hx), (proj1 (Hmedio y0 y1) Hy),
    (proj1 (Hmedio z0 z1) Hz).
  split; [|done].
  split; [|split]; by apply Hresta.
Qed.

Lemma octree_cajas_witness :
  ∃ raiz,
    NodoOctree.__init__ 1 [(0, 0, 0); (1 # 4, 0, 0); (1, 1, 1)]%Q
      ((0, 0, 0), (1, 1, 1))%Q (1 # 2) 1 = Some raiz ∧
    ∀ n, n ∈ todos_los_nodos raiz →
         contenida (NodoOctree.limites n) ((0, 0, 0), (1, 1, 1))%Q.
Proof.
  eexists. split; [reflexivity|]. intros n Hn.
  refine (proj1 (proj2
    (@octree_cajas exacta 1 [(0, 0, 0); (1 # 4, 0, 0); (1, 1, 1)]%Q
       ((0, 0, 0), (1, 1, 1))%Q (1 # 2) 1 _ n medio_exacto resta_exacta
       eq_refl _ Hn))).
  repeat split; by vm_compute.
Defined.

(** ** The reader of point-cloud files *)

Section LectorTeoremas.
Import LectorPCD.
Variable float_ : string → Resultado Q.

(** The fields of [split] are not empty and hold no white space. *)
Lemma split_desde_campos (cs campo : list ascii) :
  Forall (λ c, es_espacio c = false) campo →
  Forall (λ f, f ≠ EmptyString ∧
               Forall (λ c, es_espacio c = false) (list_ascii_of_string f))
         (split_desde cs campo).
Proof.
  assert (∀ campo : list ascii,
            campo ≠ [] → Forall (λ c, es_espacio c = false) campo →
            string_of_list_ascii (rev campo) ≠ EmptyString ∧
            Forall (λ c, es_espacio c = false)
              (list_ascii_of_string (string_of_list_ascii (rev campo))))
    as Hcampo.
  { intros l Hl Hesp. rewrite list_ascii_of_string_of_list_ascii. split.
    - intros Hnil.
      apply (f_equal list_ascii_of_string) in Hnil.
      rewrite list_ascii_of_string_of_list_ascii in Hnil. simpl in Hnil.
      destruct l; [done|]. simpl in Hnil. by destruct (rev l).
    - apply Forall_forall. intros c Hc%list_elem_of_In%in_rev.
      exact (proj1 (Forall_forall _ _) Hesp c (proj2 (list_elem_of_In _ _) Hc)). }
  revert campo. induction cs as [|c cs IH]; intros campo Hesp; simpl.
  - destruct campo as [|a campo]; [constructor|].
    constructor; [by apply Hcampo | constructor].
  - destruct (es_espacio c) eqn:Hc.
    + destruct campo as [|a campo]; [by apply IH|].
      constructor; [by apply Hcampo | by apply IH].
    + apply IH. by constructor.
Qed.

Lemma saltar_cabecera_sin_marca (lineas : list string) :
  Forall (λ l, es_marca l = false) lineas → saltar_cabecera lineas = [].
Proof. induction 1 as [|l ls Hl _ IH]; simpl; [done|]. by rewrite Hl. Qed.

Lemma saltar_cabecera_marca (cabecera : list string) (marca : string)
    (datos : list string) :
  Forall (λ l, es_marca l = false) cabecera → es_marca marca = true →
  saltar_cabecera (cabecera ++ marca :: datos) = datos.
Proof.
  intros Hcab Hmarca. induction Hcab as [|l ls Hl _ IH]; simpl.
  - by rewrite Hmarca.
  - by rewrite Hl.
Qed.

(** Reading two runs of lines one after the other. *)
Lemma leer_datos_app (l1 l2 : list string) :
  leer_datos float_ (l1 ++ l2)
  = ligar (λ p1, ligar (λ p2, Devuelve (p1 ++ p2)) (leer_datos float_ l2))
      (leer_datos float_ l1).
Proof.
  induction l1 as [|l l1 IH]; simpl.
  - by destruct (leer_datos float_ l2).
  - rewrite IH. unfold mbind, Resultado_bind.
    destruct (leer_linea float_ l) as [[p|]|e]; simpl; [| |done];
      destruct (leer_datos float_ l1) as [p1|e1]; simpl; try done;
      by destruct (leer_datos float_ l2).
Qed.

Lemma leer_linea_corta (linea : string) :
  (length (split (strip linea)) < 3)%nat →
  leer_linea float_ linea = Devuelve None.
Proof.
  unfold leer_linea. intros Hcorta.
  destruct (split (strip linea)) as [|a [|b [|c resto]]]; try done.
  simpl in Hcorta. lia.
Qed.

End LectorTeoremas.

(** X13.  [leer_pcd] ignores every line up to and including the first line
    that reads [data ascii], whatever its capitals and surrounding white
    space, and reads the points from the lines after it; a file without
    such a line gives an empty cloud. *)
Theorem leer_pcd_cabecera (float_ : string → Resultado Q)
    (cabecera : list string) (marca : string) (datos : list string) :
  (Forall (λ l, LectorPCD.es_marca l = false) cabecera →
   LectorPCD.es_marca marca = true →
   LectorPCD.leer_pcd float_ (cabecera ++ marca :: datos)
   = LectorPCD.leer_datos float_ datos) ∧
  (Forall (λ l, LectorPCD.es_marca l = false) cabecera →
   LectorPCD.leer_pcd float_ cabecera = Devuelve []).
Proof.
  unfold LectorPCD.leer_pcd. split.
  - intros Hcab Hmarca. by rewrite saltar_cabecera_marca.
  - intros Hcab. by rewrite saltar_cabecera_sin_marca.
Qed.

Lemma leer_pcd_cabecera_witness :
  LectorPCD.leer_pcd (λ _, Devuelve 1%Q)
    (["VERSION .7"%string; "POINTS 1"%string]
     ++ "  DATA Ascii "%string :: ["1 1 1"%string; "1 1"%string])
  = Devuelve [(1, 1, 1)%Q].
Proof.
  rewrite (proj1 (leer_pcd_cabecera (λ _, Devuelve 1%Q)
                    ["VERSION .7"%string; "POINTS 1"%string]
                    "  DATA Ascii "%string
                    ["1 1 1"%string; "1 1"%string])).
  - reflexivity.
  - by repeat constructor.
  - reflexivity.
Defined.

(** X14.  A line of fewer than three fields is skipped without error: the
    cloud read is the one read without that line. *)
Theorem leer_datos_linea_corta (float_ : string → Resultado Q)
    (antes despues : list string) (corta : string) :
  (length (split (strip corta)) < 3)%nat →
  LectorPCD.leer_datos float_ (antes ++ corta :: despues)
  = LectorPCD.leer_datos float_ (antes ++ despues).
Proof.
  intros Hcorta. rewrite !leer_datos_app. cbn [LectorPCD.leer_datos].
  rewrite (leer_linea_corta float_ corta Hcorta).
  unfold mbind, Resultado_bind.
  destruct (LectorPCD.leer_datos float_ antes); simpl; [|done].
  by destruct (LectorPCD.leer_datos float_ despues).
Qed.

Lemma leer_datos_linea_corta_witness :
  LectorPCD.leer_datos (λ _, Devuelve 1%Q)
    (["1 1 1"%string] ++ "1 1"%string :: ["1 1 1"%string])
  = LectorPCD.leer_datos (λ _, Devuelve 1%Q)
      (["1 1 1"%string] ++ ["1 1 1"%string]).
Proof.
  apply (leer_datos_linea_corta (λ _, Devuelve 1%Q) ["1 1 1"%string]
           ["1 1 1"%string] "1 1"%string).
  simpl. lia.
Defined.

(** X15.  When the data lines are read without error there is one point
    for each line of at least three fields, in the order of the lines, and
    its coordinates are the conversions of the first three fields, the
    others being ignored; when the reading fails, it is with the exception
    of the conversion of one of the first three fields of such a line. *)
Theorem leer_datos_resultado (float_ : string → Resultado Q)
    (datos : list string) :
  (∀ pts, LectorPCD.leer_datos float_ datos = Devuelve pts →
     Forall2 (λ linea p,
                ∃ a b c resto,
                  split (strip linea) = a :: b :: c :: resto ∧
                  float_ a = Devuelve (px p) ∧ float_ b = Devuelve (py p) ∧
                  float_ c = Devuelve (pz p))
       (filter (λ l, (3 ≤ length (split (strip l)))%nat) datos) pts) ∧
  (∀ e, LectorPCD.leer_datos float_ datos = Lanza e →
     ∃ linea a b c resto,
       linea ∈ datos ∧ split (strip linea) = a :: b :: c :: resto ∧
       (float_ a = Lanza e ∨ float_ b = Lanza e ∨ float_ c = Lanza e)).
Proof.
  induction datos as [|linea datos [IHok IHerr]].
  - split; [intros pts [= <-]; constructor | discriminate].
  - cbn [LectorPCD.leer_datos]. unfold LectorPCD.leer_linea.
    destruct (split (strip linea)) as [|a [|b [|c resto]]] eqn:Hsplit;
      try (split;
           [intros pts Hpts; rewrite filter_cons_False
              by (rewrite Hsplit; simpl; lia);
            apply IHok; simpl in Hpts;
            by destruct (LectorPCD.leer_datos float_ datos)
           |intros e He; simpl in He;
            destruct (LectorPCD.leer_datos float_ datos) as [ps|e'] eqn:Hd;
            [discriminate|]; injection He as <-;
            destruct (IHerr e' eq_refl) as (l & a' & b' & c' & r' & Hl & H);
            exists l, a', b', c', r';
            split; [by apply list_elem_of_further | exact H]]).
    unfold mbind, Resultado_bind. split.
    + intros pts Hpts.
      rewrite filter_cons_True by (rewrite Hsplit; simpl; lia).
      destruct (float_ a) as [x|] eqn:Ha; [|discriminate].
      destruct (float_ b) as [y|] eqn:Hb; [|discriminate].
      destruct (float_ c) as [z|] eqn:Hc; [|discriminate].
      simpl in Hpts.
      destruct (LectorPCD.leer_datos float_ datos) as [ps|] eqn:Hd;
        [|discriminate].
      injection Hpts as <-. constructor; [|by apply IHok].
      exists a, b, c, resto. by rewrite Hsplit.
    + intros e He.
      destruct (float_ a) as [x|ea] eqn:Ha.
      2: { injection He as <-. exists linea, a, b, c, resto.
           split; [apply list_elem_of_here|]. split; [done | by left]. }
      destruct (float_ b) as [y|eb] eqn:Hb.
      2: { injection He as <-. exists linea, a, b, c, resto.
           split; [apply list_elem_of_here|]. split; [done | by right; left]. }
      destruct (float_ c) as [z|ec] eqn:Hc.
      2: { injection He as <-. exists linea, a, b, c, resto.
           split; [apply list_elem_of_here|]. split; [done | by right; right]. }
      simpl in He.
      destruct (LectorPCD.leer_datos float_ datos) as [ps|e'] eqn:Hd;
        [discriminate|]. injection He as <-.
      destruct (IHerr e' eq_refl) as (l & a' & b' & c' & r' & Hl & H).
      exists l, a', b', c', r'.
      split; [by apply list_elem_of_further | exact H].
Qed.

(** ** The table of the comparison *)

Section Tabla.

Lemma length_string_of_list_ascii (l : list ascii) :
  String.length (string_of_list_ascii l) = length l.
Proof. induction l as [|c l IH]; simpl; [done | by rewrite IH]. Qed.

Lemma len_append (s1 s2 : string) :
  len (String.append s1 s2) = len s1 + len s2.
Proof.
  unfold len. induction s1 as [|c s1 IH]; simpl String.length; [done|].
  simpl String.append. simpl String.length. lia.
Qed.

Lemma len_repetir (c : ascii) (n : Z) : len (repetir c n) = Z.max 0 n.
Proof.
  unfold len, repetir. rewrite length_string_of_list_ascii, length_replicate.
  lia.
Qed.

Lemma len_ljust (s : string) (W : Z) : len s <= W → len (ljust s W) = W.
Proof.
  intros Hs. unfold ljust. rewrite len_append, len_repetir. lia.
Qed.

Lemma foldl_max_cota (l : list Z) (x : Z) :
  x <= foldl Z.max x l ∧ ∀ y, y ∈ l → y <= foldl Z.max x l.
Proof.
  revert x. induction l as [|a l IH]; intros x; simpl.
  - split; [lia|]. intros y Hy. by apply elem_of_nil in Hy.
  - destruct (IH (Z.max x a)) as [Hx Hl]. split; [lia|].
    intros y [-> | Hy]%elem_of_cons; [lia | by apply Hl].
Qed.

Lemma py_max_cota (l : list Z) (m : Z) :
  py_max l = Devuelve m → ∀ y, y ∈ l → y <= m.
Proof.
  destruct l as [|x l]; [discriminate|]. intros [= <-] y.
  destruct (foldl_max_cota l x) as [Hx Hl].
  intros [-> | Hy]%elem_of_cons; [exact Hx | by apply Hl].
Qed.

Lemma py_max_constante (l : list Z) (L : Z) :
  l ≠ [] → (∀ y, y ∈ l → y = L) → py_max l = Devuelve L.
Proof.
  destruct l as [|x l]; [done|]. intros _ Hl. simpl. f_equal.
  rewrite (Hl x) by apply list_elem_of_here.
  assert (∀ y, y ∈ l → y = L) as Hl'
    by (intros y Hy; by apply Hl, list_elem_of_further).
  clear Hl. induction l as [|a l IH]; simpl; [done|].
  rewrite (Hl' a) by apply list_elem_of_here. rewrite Z.max_id.
  apply IH. intros y Hy. by apply Hl', list_elem_of_further.
Qed.

Lemma comprension_Forall2 {A B : Type} (f : A → Resultado B)
    (P : A → B → Prop) (l : list A) :
  (∀ a, a ∈ l → ∃ b, f a = Devuelve b ∧ P a b) →
  ∃ bs, comprension f l = Devuelve bs ∧ Forall2 P l bs.
Proof.
  induction l as [|a l IH]; intros Hf; simpl.
  - by exists [].
  - destruct (Hf a) as (b & -> & Hb); [apply list_elem_of_here|].
    destruct IH as (bs & -> & Hbs).
    { intros a' Ha'. by apply Hf, list_elem_of_further. }
    exists (b :: bs). split; [done | by constructor].
Qed.

Lemma len_concat (piezas : list string) :
  len (String.concat "" piezas) = suma_Z (len <$> piezas).
Proof.
  induction piezas as [|p [|q piezas] IH].
  - done.
  - unfold suma_Z. simpl. lia.
  - change (String.concat "" (p :: q :: piezas))
      with (String.append p
              (String.append "" (String.concat "" (q :: piezas)))).
    rewrite fmap_cons, suma_Z_cons, len_append, <- IH. done.
Qed.

Lemma suma_Z_app (l1 l2 : list Z) :
  suma_Z (l1 ++ l2) = suma_Z l1 + suma_Z l2.
Proof.
  unfold suma_Z. induction l1 as [|x l1 IH]; simpl; lia.
Qed.

Lemma range_S (k : nat) :
  range (Z.of_nat (S k)) = range (Z.of_nat k) ++ [Z.of_nat k].
Proof.
  unfold range. rewrite !Nat2Z.id, seq_S, fmap_app. done.
Qed.

(** The widths of the pieces of a line add up to the width of the table. *)
Lemma suma_anchos (W m : Z) (k : nat) :
  0 <= m →
  suma_Z ((λ j, W + (if j <? m then 3 else 0)) <$> range (Z.of_nat k))
  = Z.of_nat k * W + 3 * Z.min (Z.of_nat k) m.
Proof.
  intros Hm. induction k as [|k IH]; [unfold suma_Z; simpl; lia|].
  rewrite range_S, fmap_app, suma_Z_app, IH, Nat2Z.inj_succ.
  rewrite fmap_cons, suma_Z_cons. change (suma_Z (_ <$> [])) with 0.
  destruct (Z.of_nat k <? m) eqn:Hk;
    [apply Z.ltb_lt in Hk | apply Z.ltb_ge in Hk]; lia.
Qed.

Lemma indice_valido {A : Type} (l : list A) (j : Z) :
  0 <= j < Z.of_nat (length l) → ∃ x, indice l j = Devuelve x ∧ x ∈ l.
Proof.
  intros Hj. destruct (indice_en_rango l j Hj) as (x & Hx & Hl).
  exists x. split; [exact Hx|]. apply list_elem_of_lookup. eauto.
Qed.

(** A line of a table whose columns all have a row [i]. *)
Lemma linea_de_tabla_ancho (columnas : list (list string)) (W i : Z) :
  columnas ≠ [] →
  (∀ c, c ∈ columnas → 0 <= i < Z.of_nat (length c)) →
  (∀ c x, c ∈ columnas → x ∈ c → len x <= W) →
  ∃ linea, linea_de_tabla columnas W i = Devuelve linea ∧
           len linea = largo_columnas columnas * W
                       + (largo_columnas columnas - 1) * 3.
Proof.
  intros Hne Hfilas Hancho. unfold linea_de_tabla.
  set (n := largo_columnas columnas).
  assert (1 <= n) as Hn
    by (unfold n, largo_columnas; destruct columnas; [done | simpl; lia]).
  destruct (comprension_Forall2
              (λ j, c ← indice columnas j;
                    x ← indice c i;
                    Devuelve (String.append (ljust x W)
                                (if j <? n - 1
                                 then " | "%string else ""%string)))
              (λ j pieza, len pieza = W + (if j <? n - 1 then 3 else 0))
              (range n)) as (piezas & Hpiezas & Hlen).
  { intros j Hj.
    pose proof (proj1 (Forall_forall _ _) (range_Forall n) j Hj) as Hjn.
    destruct (indice_valido columnas j) as (c & -> & Hc); [exact Hjn|].
    destruct (indice_valido c i (Hfilas c Hc)) as (x & Hx & Hxc).
    unfold mbind, Resultado_bind. simpl. rewrite Hx. simpl.
    eexists. split; [reflexivity|].
    rewrite len_append, len_ljust by (by apply (Hancho c x)).
    by destruct (j <? n - 1). }
  unfold mbind at 1, Resultado_bind at 1. rewrite Hpiezas. simpl.
  eexists. split; [reflexivity|].
  rewrite len_concat.
  rewrite (suma_Z_Forall2 len (λ j, W + (if j <? n - 1 then 3 else 0))
             (range n) piezas)
    by (eapply Forall2_impl; [exact Hlen | done]).
  unfold n, largo_columnas in *. rewrite suma_anchos by lia. lia.
Qed.

Lemma imprimir_lineas_todas (f : Z → Resultado string) (P : string → Prop)
    (indices : list Z) (salida : list string) :
  (∀ i, i ∈ indices → ∃ l, f i = Devuelve l ∧ P l) →
  ∃ ls, imprimir_lineas f indices salida = (salida ++ ls, None) ∧
        length ls = length indices ∧ Forall P ls.
Proof.
  revert salida. induction indices as [|i indices IH]; intros salida Hf.
  - exists []. by rewrite app_nil_r.
  - destruct (Hf i) as (l & Hl & HP); [apply list_elem_of_here|].
    destruct (IH (salida ++ [l])) as (ls & Hls & Hlen & Hall).
    { intros j Hj. by apply Hf, list_elem_of_further. }
    exists (l :: ls). simpl. rewrite Hl, Hls, <- app_assoc. simpl.
    split; [done|]. split; [by rewrite Hlen | by constructor].
Qed.

End Tabla.

(** X16.  For a non-empty list of columns that all have the same positive
    number of rows, the table is printed without error: a border, one line
    per row, and the border again, all of the same width
    [n * W + (n - 1) * 3], where [n] is the number of columns and [W]
    exceeds the length of every entry by at least 2. *)
Theorem tabla_alineada (columnas : list (list string)) (L : Z) :
  columnas ≠ [] → 1 <= L →
  (∀ c, c ∈ columnas → Z.of_nat (length c) = L) →
  ∃ W lineas borde,
    formatear_tabla columnas = (borde :: lineas ++ [borde], None) ∧
    Z.of_nat (length lineas) = L ∧
    (∀ c x, c ∈ columnas → x ∈ c → len x + 2 <= W) ∧
    ∀ s, s ∈ borde :: lineas ++ [borde] →
         len s = largo_columnas columnas * W
                 + (largo_columnas columnas - 1) * 3.
Proof.
  intros Hne HL Hfilas. unfold formatear_tabla.
  rewrite (py_max_constante _ L).
  2: { by destruct columnas. }
  2: { intros y (c & -> & Hc)%list_elem_of_fmap. by apply Hfilas. }
  destruct (comprension_Forall2 (λ c, py_max (len <$> c))
              (λ c a, ∀ x, x ∈ c → len x <= a) columnas)
    as (anchos & Hanchos & Hcota).
  { intros c Hc. specialize (Hfilas c Hc).
    destruct c as [|x c]; [simpl in Hfilas; lia|].
    exists (foldl Z.max (len x) (len <$> c)). split; [reflexivity|].
    intros y Hy. apply (py_max_cota (len x :: (len <$> c)) _ eq_refl).
    change (len y ∈ len <$> x :: c). apply list_elem_of_fmap. eauto. }
  rewrite Hanchos. cbn [ligar].
  destruct (py_max anchos) as [ancho|e] eqn:Hancho.
  2: { destruct anchos; [|discriminate].
       apply Forall2_length in Hcota. by destruct columnas. }
  set (W := ancho + 2).
  set (n := largo_columnas columnas).
  assert (1 <= n) as Hn
    by (unfold n, largo_columnas; destruct columnas; [done | simpl; lia]).
  assert (∀ c x, c ∈ columnas → x ∈ c → len x + 2 <= W) as HW.
  { intros c x Hc Hx.
    apply list_elem_of_lookup in Hc as [i Hi].
    destruct (Forall2_lookup_l _ _ _ _ _ Hcota Hi) as (a & Ha & Hca).
    pose proof (py_max_cota anchos ancho Hancho a
                  (proj2 (list_elem_of_lookup _ _) (ex_intro _ i Ha))).
    specialize (Hca x Hx). unfold W. lia. }
  set (borde := repetir "-" (n * W + (n - 1) * len " | ")).
  destruct (imprimir_lineas_todas (linea_de_tabla columnas W)
              (λ l, len l = n * W + (n - 1) * 3) (range L) [borde])
    as (lineas & Hlineas & Hlen & Hall).
  { intros i Hi.
    pose proof (proj1 (Forall_forall _ _) (range_Forall L) i Hi) as HiL.
    apply linea_de_tabla_ancho; [exact Hne | |].
    - intros c Hc. by rewrite (Hfilas c Hc).
    - intros c x Hc Hx. specialize (HW c x Hc Hx). lia. }
  rewrite Hlineas. exists W, lineas, borde.
  split; [done|]. split; [rewrite Hlen, length_range; lia|].
  split; [exact HW|].
  assert (len borde = n * W + (n - 1) * 3) as Hborde.
  { unfold borde. rewrite len_repetir. change (len " | ") with 3.
    assert (0 <= ancho); [|unfold W; nia].
    destruct columnas as [|c cs]; [done|].
    specialize (Hfilas c (list_elem_of_here _ _)).
    destruct c as [|x c]; [simpl in Hfilas; lia|].
    specialize (HW (x :: c) x (list_elem_of_here _ _) (list_elem_of_here _ _)).
    unfold W, len in HW. lia. }
  intros s [-> | [Hs | ->%list_elem_of_singleton]%elem_of_app]%elem_of_cons;
    [exact Hborde | | exact Hborde].
  exact (proj1 (Forall_forall _ _) Hall s Hs).
Qed.

Lemma tabla_alineada_witness :
  ∃ lineas borde,
    formatear_tabla [["ab"; "c"]; ["d"; "efg"]]%string
    = (borde :: lineas ++ [borde], None) ∧
    Z.of_nat (length lineas) = 2.
Proof.
  destruct (tabla_alineada [["ab"; "c"]; ["d"; "efg"]]%string 2)
    as (W & lineas & borde & Htabla & Hlen & _);
    [discriminate | lia | |].
  - intros c [-> | [-> | H]%elem_of_cons]%elem_of_cons;
      [reflexivity | reflexivity | by apply elem_of_nil in H].
  - by exists lineas, borde.
Defined.
